(** * Request orchestration of the inceptra server

    A shallow embedding of the request handlers of the server:
    the daily-quota middleware ([src/middleware/rateLimit.ts]), the
    model-fallback loops of the image, background-removal and resume
    routes, and the history listing route.

    Conventions of the embedding:
    - JavaScript values that flow through the handlers are [jsval];
      only the shapes the handlers inspect are represented.
    - Handlers run in a state-and-exception monad [M] over a [world]
      that holds the database tables, the clock, the behaviour of the
      third-party inference provider and a log of the observable
      effects (database queries, provider calls, inserts).
    - A thrown JavaScript error is an [exn]: its [message] and its
      [error.response.status] (when present).
    - Libraries that are not part of the repository (Node's Buffer
      base64 codec, sharp, pdf.js, JSON.stringify) are fields of the
      record [ext]; every theorem quantifies over them. *)

From Stdlib Require Import String Ascii List ZArith QArith Bool Lia Sorting.Sorted.
Import ListNotations.
Open Scope string_scope.
Open Scope Z_scope.
Local Set Warnings "-register-all".

(* ------------------------------------------------------------------ *)
(** ** JavaScript values *)

Inductive jsval : Type :=
| JUndef
| JNull
| JBool (b : bool)
| JNum (n : Z)
| JStr (s : string)
| JArr (xs : list jsval)
| JObj (fields : list (string * jsval))
| JBlob (bytes : list Byte.byte)          (* a Blob instance *)
| JArrayBuffer (bytes : list Byte.byte).  (* an ArrayBuffer instance *)

(** JavaScript truthiness ([!v] is [negb (truthy v)]). *)
Definition truthy (v : jsval) : bool :=
  match v with
  | JUndef | JNull => false
  | JBool b => b
  | JNum n => negb (n =? 0)
  | JStr s => negb (String.eqb s "")
  | _ => true
  end.

Fixpoint assoc {A} (k : string) (l : list (string * A)) : option A :=
  match l with
  | [] => None
  | (k', v) :: l' => if String.eqb k k' then Some v else assoc k l'
  end.

Fixpoint nat_of_digits_aux (s : string) (acc : nat) : option nat :=
  match s with
  | EmptyString => Some acc
  | String c r =>
      let n := Ascii.nat_of_ascii c in
      if (48 <=? n)%nat && (n <=? 57)%nat
      then nat_of_digits_aux r (acc * 10 + (n - 48))%nat
      else None
  end.

(** [v[k]] on a value known not to be [undefined] or [null]
    (an own property of an object, or an index of an array). *)
Definition get (v : jsval) (k : string) : jsval :=
  match v with
  | JObj fs => match assoc k fs with Some x => x | None => JUndef end
  | JArr xs =>
      match k with
      | EmptyString => JUndef
      | _ => match nat_of_digits_aux k 0 with
             | Some i => nth i xs JUndef
             | None => JUndef
             end
      end
  | _ => JUndef
  end.

(** Optional chaining [v?.[k]]. *)
Definition get_opt (v : jsval) (k : string) : jsval :=
  match v with
  | JUndef | JNull => JUndef
  | _ => get v k
  end.

Definition is_string (v : jsval) : bool :=
  match v with JStr _ => true | _ => false end.

(** A thrown error: [error.message] and [error?.response?.status]. *)
Record exn : Type := Exn { message : string; status : option Z }.

Definition new_Error (msg : string) : exn := Exn msg None.

(** [String.prototype.includes]. *)
Definition includes (hay needle : string) : bool :=
  match String.index 0 needle hay with Some _ => true | None => false end.

Definition dquote : ascii := Ascii.ascii_of_nat 34.

Fixpoint digits_of_nat (fuel n : nat) (acc : string) : string :=
  match fuel with
  | O => acc
  | S fuel' =>
      let acc' := String (Ascii.ascii_of_nat (48 + Nat.modulo n 10)) acc in
      if (n <? 10)%nat then acc' else digits_of_nat fuel' (Nat.div n 10) acc'
  end.

(** Decimal rendering of a number, as template literals print it. *)
Definition string_of_nat (n : nat) : string := digits_of_nat (S n) n "".

Definition string_of_Z (z : Z) : string :=
  if z <? 0 then "-" ++ string_of_nat (Z.to_nat (- z)) else string_of_nat (Z.to_nat z).

(** ASCII whitespace and line terminators removed by [String.prototype.trim]. *)
Definition is_js_space (c : ascii) : bool :=
  let n := Ascii.nat_of_ascii c in ((9 <=? n) && (n <=? 13))%nat || (n =? 32)%nat.

Fixpoint trim_start (s : string) : string :=
  match s with
  | String c r => if is_js_space c then trim_start r else s
  | EmptyString => EmptyString
  end.

Definition rev_string (s : string) : string :=
  string_of_list_ascii (rev (list_ascii_of_string s)).

(** [String.prototype.trim] on ASCII strings. *)
Definition trim (s : string) : string := rev_string (trim_start (rev_string (trim_start s))).

(* ------------------------------------------------------------------ *)
(** ** The world: database, clock, provider, effect log *)

Record user : Type := User { u_id : string; u_isPremium : bool }.

(** A row of the [GenerationHistory] table. *)
Record genrec : Type := GenRec {
  g_id : string;
  g_userId : string;
  g_feature : string;
  g_input : jsval;
  g_output : jsval;
  g_createdAt : Z  (* milliseconds since the epoch *)
}.

(** How one provider call ends, raced against its timer:
    it settles first with a value or an error, or the timer fires first. *)
Inductive call_outcome : Type :=
| Resolves (v : jsval)
| Rejects (e : exn)
| TimerFirst.

Inductive effect : Type :=
| EFindUser (uid : string)
| ECount (uid feature : string) (since : Z)
| ECall (model : string)
| ECreate (r : genrec)
| EFindMany (uid : string)
| ECountAll (uid : string).

Record world : Type := World {
  w_users : list user;
  w_records : list genrec;          (* in table order *)
  w_now : Z;                        (* Date.now() *)
  w_next_id : nat;                  (* state of the id generator *)
  w_db_up : bool;                   (* false: writes fail *)
  w_provider : string -> Z -> call_outcome;  (* model, timeout in ms *)
  w_log : list effect
}.

Definition log_effect (e : effect) (w : world) : world :=
  World (w_users w) (w_records w) (w_now w) (w_next_id w) (w_db_up w)
        (w_provider w) (w_log w ++ [e]).

(** State and exception monad of the handlers. *)
Definition M (A : Type) : Type := world -> (exn + A) * world.

Definition ret {A} (a : A) : M A := fun w => (inr a, w).
Definition throw {A} (e : exn) : M A := fun w => (inl e, w).
Definition bind {A B} (m : M A) (k : A -> M B) : M B :=
  fun w => match m w with
           | (inl e, w') => (inl e, w')
           | (inr a, w') => k a w'
           end.
Definition try_catch {A} (m : M A) (h : exn -> M A) : M A :=
  fun w => match m w with
           | (inl e, w') => h e w'
           | (inr a, w') => (inr a, w')
           end.
Definition emit (e : effect) : M unit := fun w => (inr tt, log_effect e w).
Definition read {A} (f : world -> A) : M A := fun w => (inr (f w), w).

Notation "x <- m ;; k" := (bind m (fun x => k))
  (at level 61, m at next level, right associativity).
Notation "m ;;; k" := (bind m (fun _ => k))
  (at level 61, right associativity).

Record response : Type := Resp { r_status : Z; r_body : jsval }.

Definition json (v : jsval) : response := Resp 200 v.
Definition error_resp (code : Z) (msg : string) : response :=
  Resp code (JObj [("error", JStr msg)]).

(** What an Express middleware does: call [next()] or answer. *)
Inductive mw_result : Type := Next | Respond (r : response).

(** [router.post(path, mw, handler)]: the handler runs only on [next()]. *)
Definition chain (mw : M mw_result) (h : M response) : M response :=
  r <- mw;; match r with Next => h | Respond resp => ret resp end.

(* ------------------------------------------------------------------ *)
(** ** Database access (prisma) *)

Definition findUser (uid : string) : M (option user) :=
  emit (EFindUser uid);;;
  read (fun w => find (fun u => String.eqb (u_id u) uid) (w_users w)).

(** [generationHistory.count({ where: { userId, feature, createdAt: { gte } } })]. *)
Definition usage_count (recs : list genrec) (uid feature : string) (since : Z) : nat :=
  length (filter (fun r => String.eqb (g_userId r) uid && String.eqb (g_feature r) feature
                           && (since <=? g_createdAt r)) recs).

Definition countGenerations (uid feature : string) (since : Z) : M nat :=
  emit (ECount uid feature since);;;
  read (fun w => usage_count (w_records w) uid feature since).

Definition storage_error : exn := new_Error "Can't reach database server".

(** [generationHistory.create({ data })]: the row gets a fresh id and
    [createdAt = now]; when the database is down the call throws. *)
Definition createGeneration (uid feature : string) (input output : jsval) : M genrec :=
  fun w =>
    if w_db_up w then
      let r := GenRec ("g" ++ string_of_nat (w_next_id w)) uid feature input output (w_now w) in
      (inr r, World (w_users w) (w_records w ++ [r]) (w_now w) (S (w_next_id w))
                    (w_db_up w) (w_provider w) (w_log w ++ [ECreate r]))
    else (inl storage_error, w).

(* ------------------------------------------------------------------ *)
(** ** Daily quota middleware (src/middleware/rateLimit.ts) *)

Definition FREE_LIMITS : list (string * Z) :=
  [("article-generator", 10); ("image-generator", 10);
   ("background-remover", 10); ("resume-analyzer", 10)].

(** Names a plain object literal inherits from [Object.prototype]. *)
Definition object_prototype_keys : list string :=
  ["constructor"; "__defineGetter__"; "__defineSetter__"; "hasOwnProperty";
   "__lookupGetter__"; "__lookupSetter__"; "isPrototypeOf";
   "propertyIsEnumerable"; "toString"; "valueOf"; "__proto__"; "toLocaleString"].

(** The value of [FREE_LIMITS[feature] ?? 0]: a number, or an inherited
    method/object (for which [count >= limit] compares with NaN). *)
Inductive limit_val : Type := LNum (n : Z) | LNonNumeric.

Definition limit_of (feature : string) : limit_val :=
  match assoc feature FREE_LIMITS with
  | Some n => LNum n
  | None => if existsb (String.eqb feature) object_prototype_keys
            then LNonNumeric else LNum 0
  end.

(** [count >= limit]. *)
Definition limit_reached (count : nat) (l : limit_val) : bool :=
  match l with
  | LNum n => n <=? Z.of_nat count
  | LNonNumeric => false
  end.

Definition ms_per_day : Z := 86400000.

(** [startOfDay = new Date(); startOfDay.setUTCHours(0, 0, 0, 0)]. *)
Definition start_of_utc_day (now : Z) : Z := (now / ms_per_day) * ms_per_day.

Definition limit_text (l : limit_val) : string :=
  match l with LNum n => string_of_Z n | LNonNumeric => "[object]" end.

Definition quota_exceeded (feature : string) (limit : limit_val) : response :=
  error_resp 429 ("Free limit of " ++ limit_text limit ++ " per day reached for " ++ feature ++
                  ". Upgrade to Premium for unlimited access.").

Definition enforceDailyLimit (feature : string) (userId : string) : M mw_result :=
  ou <- findUser userId;;
  match ou with
  | None => ret (Respond (error_resp 401 "User not found."))
  | Some u =>
      if u_isPremium u then ret Next else
      now <- read w_now;;
      let startOfDay := start_of_utc_day now in
      count <- countGenerations userId feature startOfDay;;
      let limit := limit_of feature in
      if limit_reached count limit then ret (Respond (quota_exceeded feature limit))
      else ret Next
  end.

(* ------------------------------------------------------------------ *)
(** ** Provider fallback loop (shared by the image, background-removal
       and resume routes) *)

Record cand : Type := Cand { c_model : string; c_timeout : Z }.

Definition timeout_error : exn := new_Error "Request timeout".

(** [await Promise.race([providerCall, timeoutPromise])]. *)
Definition race (c : cand) : M (exn + jsval) :=
  emit (ECall (c_model c));;;
  o <- read (fun w => w_provider w (c_model c) (c_timeout c));;
  ret (match o with
       | Resolves v => inr v
       | Rejects e => inl e
       | TimerFirst => inl timeout_error
       end).

(** The [for (const modelConfig of models) { try ... catch ... }] loop.
    [resp] is the response variable ([let imageResponse;] starts
    [undefined]), [lastError] the last caught error. A rejected race
    leaves [resp] unassigned. *)
Fixpoint fallback (retryable : exn -> bool) (cs : list cand)
         (resp : jsval) (lastError : option exn) : M (jsval * option exn) :=
  match cs with
  | [] => ret (resp, lastError)
  | c :: rest =>
      r <- race c;;
      match r with
      | inr v => ret (v, lastError)                         (* break *)
      | inl e => if retryable e
                 then fallback retryable rest resp (Some e)  (* continue *)
                 else ret (resp, Some e)                     (* break *)
      end
  end.

(** [if (!resp) throw lastError || new Error("All models failed")]. *)
Definition settle (r : jsval * option exn) : M jsval :=
  let '(resp, lastError) := r in
  if truthy resp then ret resp
  else throw (match lastError with Some e => e | None => new_Error "All models failed" end).

Definition run_fallback (retryable : exn -> bool) (cs : list cand) : M jsval :=
  r <- fallback retryable cs JUndef None;; settle r.

(** image.ts and resume.ts:
    [error.message === "Request timeout" || error?.response?.status === 402]. *)
Definition timeout_or_credit (e : exn) : bool :=
  String.eqb (message e) "Request timeout" ||
  match status e with Some s => s =? 402 | None => false end.

(** bgRemove.ts: [error?.response?.status === 402]. *)
Definition credit_only (e : exn) : bool :=
  match status e with Some s => s =? 402 | None => false end.

(* ------------------------------------------------------------------ *)
(** ** Libraries outside the repository *)

Record ext : Type := Ext {
  b64_encode : list Byte.byte -> string;        (* buf.toString("base64") *)
  b64_decode : string -> list Byte.byte;        (* Buffer.from(s, "base64") *)
  buffer_from : jsval -> exn + list Byte.byte;  (* Buffer.from(x) *)
  json_stringify : jsval -> string;             (* JSON.stringify(x) *)
  (* sharp(buf).resize(1024, 1024, { fit: 'inside', withoutEnlargement: true })
       .jpeg({ quality: 85 }).toBuffer() *)
  sharp_compress : list Byte.byte -> exn + list Byte.byte;
  (* sharp(original).resize(1024, 1024, { fit: 'inside', withoutEnlargement: true })
       .joinChannel(mask).png().toBuffer() *)
  sharp_composite : list Byte.byte -> list Byte.byte -> exn + list Byte.byte;
  (* extractTextFromPdf(buffer) *)
  pdf_text : list Byte.byte -> exn + string
}.

Definition lift {A} (r : exn + A) : M A :=
  match r with inl e => throw e | inr a => ret a end.

Record upload : Type := Upload { up_originalname : string; up_buffer : list Byte.byte }.

Definition opt_str (o : option string) : jsval :=
  match o with Some s => JStr s | None => JUndef end.

(* ------------------------------------------------------------------ *)
(** ** Image generation route (src/routes/image.ts) *)

Definition image_models : list cand :=
  [Cand "black-forest-labs/FLUX.1-dev" 90000;
   Cand "stabilityai/stable-diffusion-xl-base-1.0" 75000;
   Cand "runwayml/stable-diffusion-v1-5" 60000].

Record image_body : Type :=
  ImageBody { ib_prompt : option string; ib_style : option string; ib_size : option string }.

Definition buildFullPrompt (prompt : string) (style size : option string) : string :=
  let full := trim prompt in
  let full := match style with Some s => if String.eqb s "" then full else full ++ ", style: " ++ s
                             | None => full end in
  match size with Some s => if String.eqb s "" then full else full ++ ", size: " ++ s
                | None => full end.

Definition convertToBase64 (ex : ext) (response : jsval) : M string :=
  match response with
  | JStr s => ret s
  | JBlob b => ret (b64_encode ex b)
  | JArrayBuffer b => ret (b64_encode ex b)
  | _ =>
      match truthy response, get response "data" with
      | true, JStr d => ret d
      | _, _ =>
      if truthy response && truthy (get response "buffer") then
        b <- lift (buffer_from ex (get response "buffer"));; ret (b64_encode ex b)
      else match truthy response, get response "base64" with
      | true, JStr d => ret d
      | _, _ =>
      match truthy response, get response "image" with
      | true, JStr d => ret d
      | _, _ => throw (new_Error "Unsupported response format from HuggingFace API")
      end end end
  end.

Definition image_error_message (err : exn) : string :=
  if String.eqb (message err) "Request timeout" then "Image generation timed out. Please try again."
  else if match status err with Some s => s =? 429 | None => false end
  then "Rate limit exceeded. Please try again later."
  else if includes (message err) "Unsupported response format"
  then "Image generation service temporarily unavailable."
  else "Image generation failed".

Definition image_handler (ex : ext) (userId : string) (b : image_body) : M response :=
  if String.eqb userId "" then ret (error_resp 401 "Unauthorized: No user ID") else
  let short := error_resp 400 "Prompt must be at least 3 characters." in
  match ib_prompt b with
  | None => ret short
  | Some prompt =>
    if String.eqb prompt "" || (String.length (trim prompt) <? 3)%nat then ret short else
    let fullPrompt := buildFullPrompt prompt (ib_style b) (ib_size b) in
    try_catch
      (imageResponse <- run_fallback timeout_or_credit image_models;;
       imageBase64 <- convertToBase64 ex imageResponse;;
       if String.eqb imageBase64 "" then throw (new_Error "Empty or invalid image data received")
       else
       createGeneration userId "image-generator"
         (JObj [("prompt", JStr prompt); ("style", opt_str (ib_style b)); ("size", opt_str (ib_size b))])
         (JObj [("image", JStr imageBase64)]);;;
       ret (json (JObj [("image", JStr imageBase64)])))
      (fun err => ret (error_resp 500 (image_error_message err)))
  end.

(** [router.post("/", requireAuth, enforceDailyLimit("image-generator"), handler)],
    after [requireAuth] has set [req.auth.userId]. *)
Definition image_route (ex : ext) (userId : string) (b : image_body) : M response :=
  chain (enforceDailyLimit "image-generator" userId) (image_handler ex userId b).

(* ------------------------------------------------------------------ *)
(** ** Background removal route (src/routes/bgRemove.ts) *)

Definition bg_models : list cand :=
  map (fun m => Cand m 60000) ["briaai/RMBG-2.0"; "CIDAS/clipseg-rd64-refined"; "rembg/rembg"].

Fixpoint span_not_semicolon (s : string) : string * string :=
  match s with
  | String c r =>
      if Ascii.eqb c ";"%char then (EmptyString, s)
      else let '(run, rest) := span_not_semicolon r in (String c run, rest)
  | EmptyString => (EmptyString, EmptyString)
  end.

Definition drop (n : nat) (s : string) : string := substring n (String.length s - n) s.

(** [s.replace(/^data:image\/[^;]+;base64,/, '')]. *)
Definition strip_data_uri (s : string) : string :=
  if String.prefix "data:image/" s then
    let '(run, rest) := span_not_semicolon (drop 11 s) in
    if negb (String.eqb run "") && String.prefix ";base64," rest then drop 8 rest else s
  else s.

(** A character of the class [[A-Za-z0-9+/=]]. *)
Definition is_b64_char (c : ascii) : bool :=
  let n := Ascii.nat_of_ascii c in
  ((65 <=? n) && (n <=? 90) || (97 <=? n) && (n <=? 122) || (48 <=? n) && (n <=? 57)
   || (n =? 43) || (n =? 47) || (n =? 61))%nat.

Fixpoint b64_run (s : string) : string :=
  match s with
  | String c r => if is_b64_char c then String c (b64_run r) else EmptyString
  | EmptyString => EmptyString
  end.

(** First match of [/"([A-Za-z0-9+/=]{100,})"/]: group 1. *)
Fixpoint find_b64_quoted (s : string) : option string :=
  match s with
  | EmptyString => None
  | String c r =>
      let run := b64_run r in
      if Ascii.eqb c dquote && (100 <=? String.length run)%nat
         && String.prefix (String dquote EmptyString) (drop (String.length run) r)
      then Some run
      else find_b64_quoted r
  end.

(** [x.replace(/^data:image\/[^;]+;base64,/, '')]; only strings have [replace]. *)
Definition replace_data_uri (x : jsval) : M string :=
  match x with
  | JStr s => ret (strip_data_uri s)
  | _ => throw (new_Error "replace is not a function")
  end.

(** Step 3 of the handler: extract the mask from the segmentation result. *)
Definition extract_mask (ex : ext) (maskResult : jsval) : M string :=
  match maskResult with
  | JBlob b => ret (b64_encode ex b)
  | JStr s => ret (strip_data_uri s)
  | _ =>
    if truthy maskResult && truthy (get maskResult "mask") then replace_data_uri (get maskResult "mask")
    else if truthy maskResult && truthy (get maskResult "image") then replace_data_uri (get maskResult "image")
    else if truthy maskResult && truthy (get maskResult "0") then
      let maskData := get maskResult "0" in
      match maskData with
      | JStr s => ret (strip_data_uri s)
      | _ =>
        if truthy maskData && truthy (get maskData "mask") then replace_data_uri (get maskData "mask")
        else if truthy maskData && truthy (get maskData "image") then replace_data_uri (get maskData "image")
        else throw (new_Error "Could not extract mask from numeric key response")
      end
    else
      match find_b64_quoted (json_stringify ex maskResult) with
      | Some m => ret m
      | None => throw (new_Error "Could not extract mask from segmentation result")
      end
  end.

Definition bg_error_message (err : exn) : string :=
  if String.eqb (message err) "Request timeout" then "Image processing timed out. Please try again."
  else if match status err with Some s => s =? 429 | None => false end
  then "Rate limit exceeded. Please try again later."
  else "Failed to process image.".

Definition bg_handler (ex : ext) (userId : string) (file : option upload) : M response :=
  if String.eqb userId "" then ret (error_resp 401 "Unauthorized. Missing user ID.") else
  match file with
  | None => ret (error_resp 422 "Image file is required.")
  | Some f =>
    try_catch
      (compressedBuffer <- lift (sharp_compress ex (up_buffer f));;
       maskResult <- run_fallback credit_only bg_models;;
       maskBase64 <- extract_mask ex maskResult;;
       let maskBuffer := b64_decode ex maskBase64 in
       outputBuffer <- lift (sharp_composite ex (up_buffer f) maskBuffer);;
       let resultBase64 := b64_encode ex outputBuffer in
       createGeneration userId "background-remover"
         (JObj [("filename", JStr (up_originalname f))])
         (JObj [("image", JStr resultBase64)]);;;
       ret (json (JObj [("image", JStr resultBase64)])))
      (fun err => ret (error_resp 500 (bg_error_message err)))
  end.

(** [router.post("/", requireAuth, enforceDailyLimit("background-remover"),
    upload.single("image"), handler)]; [file] is what multer stored. *)
Definition bg_route (ex : ext) (userId : string) (file : option upload) : M response :=
  chain (enforceDailyLimit "background-remover" userId) (bg_handler ex userId file).

(* ------------------------------------------------------------------ *)
(** ** Resume analysis route (src/routes/resume.ts, in src/unnamed/part_002) *)

Definition resume_models : list cand :=
  [Cand "deepseek-ai/DeepSeek-R1-0528" 45000;
   Cand "meta-llama/Llama-3.1-8B-Instruct" 40000;
   Cand "microsoft/DialoGPT-medium" 35000].

Definition no_analysis : string := "No analysis returned.".

(** [completion.choices?.[0]?.message?.content || "No analysis returned."]. *)
Definition analysis_of (completion : jsval) : jsval :=
  let c := get_opt (get_opt (get_opt (get completion "choices") "0") "message") "content" in
  if truthy c then c else JStr no_analysis.

Definition resume_error_message (err : exn) : string :=
  if String.eqb (message err) "Request timeout" then "Resume analysis timed out. Please try again."
  else if match status err with Some s => s =? 429 | None => false end
  then "Rate limit exceeded. Please try again later."
  else "Resume analysis failed. Try again later.".

Definition resume_handler (ex : ext) (userId : string) (file : option upload) : M response :=
  match file with
  | None => ret (error_resp 400 "📎 No file uploaded.")
  | Some f =>
    try_catch
      (resumeText <- lift (pdf_text ex (up_buffer f));;
       if (String.length resumeText <? 100)%nat then
         ret (error_resp 400 "❌ Resume too short or empty. Please upload a valid resume.")
       else
       completion <- run_fallback timeout_or_credit resume_models;;
       let analysis := analysis_of completion in
       if String.eqb userId "" then ret (error_resp 401 "User ID not found in auth context") else
       createGeneration userId "resume-analyzer"
         (JObj [("filename", JStr (up_originalname f))])
         (JObj [("analysis", analysis)]);;;
       ret (json (JObj [("analysis", analysis)])))
      (fun err => ret (error_resp 500 (resume_error_message err)))
  end.

Definition resume_route (ex : ext) (userId : string) (file : option upload) : M response :=
  chain (enforceDailyLimit "resume-analyzer" userId) (resume_handler ex userId file).

(* ------------------------------------------------------------------ *)
(** ** History listing route (src/routes/history.ts, in src/unnamed/part_001) *)

(** A JavaScript number as the handler sees it. *)
Inductive jsnum : Type := NaN | Fin (q : Q) | PosInf | NegInf.

Definition jsnum_truthy (n : jsnum) : bool :=
  match n with NaN => false | Fin q => negb (Qeq_bool q 0) | _ => true end.

(** [Math.min(a, b)]. *)
Definition math_min (a b : jsnum) : jsnum :=
  match a, b with
  | NaN, _ | _, NaN => NaN
  | NegInf, _ | _, NegInf => NegInf
  | PosInf, x | x, PosInf => x
  | Fin p, Fin q => if Qle_bool p q then Fin p else Fin q
  end.

(** [Math.min(Number(req.query.limit) || 20, 50)], where [n] is the value
    of [Number(req.query.limit)] ([NaN] for an absent or non-numeric
    parameter). *)
Definition page_limit (n : jsnum) : jsnum :=
  math_min (if jsnum_truthy n then n else Fin 20) (Fin 50).

(** Prisma accepts only an integer [take]. *)
Definition take_of (n : jsnum) : exn + Z :=
  match n with
  | Fin q => if (Qnum q mod Z.pos (Qden q) =? 0)
             then inr (Qnum q / Z.pos (Qden q))
             else inl (new_Error "Argument take: Invalid value provided. Expected Int, provided Float.")
  | _ => inl (new_Error "Argument take: Invalid value provided. Expected Int.")
  end.

(** [orderBy: { createdAt: "desc" }]: a stable insertion sort, rows with
    equal timestamps kept in table order. *)
Fixpoint insert_desc (r : genrec) (l : list genrec) : list genrec :=
  match l with
  | [] => [r]
  | x :: l' => if g_createdAt x <? g_createdAt r then r :: l else x :: insert_desc r l'
  end.

Definition sort_desc (l : list genrec) : list genrec :=
  fold_left (fun acc r => insert_desc r acc) l [].

Fixpoint index_of_id (id : string) (l : list genrec) : option nat :=
  match l with
  | [] => None
  | r :: l' => if String.eqb (g_id r) id then Some O
               else option_map S (index_of_id id l')
  end.

(** Cursor, [skip] and a non-negative [take] over an ordered list. *)
Definition page_forward (ordered : list genrec) (cursor : option string) (skip : nat) (take : nat)
  : list genrec :=
  match cursor with
  | None => firstn take (skipn skip ordered)
  | Some c => match index_of_id c ordered with
              | Some p => firstn take (skipn (p + skip) ordered)
              | None => []
              end
  end.

(** [findMany({ where: { userId }, orderBy: { createdAt: "desc" }, take,
    cursor, skip })]: a negative [take] counts backwards from the end of
    the list or from the cursor, and the rows come back in the requested
    order. *)
Definition prisma_findMany (recs : list genrec) (uid : string) (take : Z)
           (cursor : option string) (skip : nat) : list genrec :=
  let ordered := sort_desc (filter (fun r => String.eqb (g_userId r) uid) recs) in
  if 0 <=? take then page_forward ordered cursor skip (Z.to_nat take)
  else rev (page_forward (rev ordered) cursor skip (Z.to_nat (- take))).

Record history_query : Type :=
  HistoryQuery { hq_limit : jsnum;              (* Number(req.query.limit) *)
                 hq_cursor : option string }.   (* req.query.cursor *)

Record history_page : Type := HistoryPage {
  hp_history : list genrec;
  hp_totalCount : nat;
  hp_hasNextPage : bool;
  hp_nextCursor : option string;
  hp_limit : jsnum
}.

Inductive history_response : Type :=
| HistoryOk (p : history_page)
| HistoryErr (code : Z) (msg : string).

(** [if (cursor) { query.cursor = { id: cursor }; query.skip = 1; }]. *)
Definition cursor_args (cursor : option string) : option string * nat :=
  match cursor with
  | Some s => if String.eqb s "" then (None, O) else (Some s, 1%nat)
  | None => (None, O)
  end.

Definition findManyHistory (uid : string) (limit : jsnum) (cursor : option string)
  : M (list genrec) :=
  emit (EFindMany uid);;;
  take <- lift (take_of limit);;
  let '(c, skip) := cursor_args cursor in
  read (fun w => prisma_findMany (w_records w) uid take c skip).

Definition countAll (uid : string) : M nat :=
  emit (ECountAll uid);;;
  read (fun w => length (filter (fun r => String.eqb (g_userId r) uid) (w_records w))).

Definition last_id (l : list genrec) : option string :=
  match rev l with [] => None | r :: _ => Some (g_id r) end.

Definition history_handler (userId : string) (q : history_query) : M history_response :=
  try_catch
    (let limit := page_limit (hq_limit q) in
     history <- findManyHistory userId limit (hq_cursor q);;
     totalCount <- countAll userId;;
     ret (HistoryOk (HistoryPage history totalCount
            (match limit with Fin l => Qeq_bool (inject_Z (Z.of_nat (length history))) l
                            | _ => false end)
            (last_id history) limit)))
    (fun err => ret (HistoryErr 500 "Failed to fetch history")).

(* ================================================================== *)
(** * Properties *)

(** The race of one candidate, as a pure function of the world. *)
Definition race_result (w : world) (c : cand) : exn + jsval :=
  match w_provider w (c_model c) (c_timeout c) with
  | Resolves v => inr v
  | Rejects e => inl e
  | TimerFirst => inl timeout_error
  end.

Definition calls (cs : list cand) : list effect := map (fun c => ECall (c_model c)) cs.

Definition with_log (w : world) (l : list effect) : world :=
  World (w_users w) (w_records w) (w_now w) (w_next_id w) (w_db_up w) (w_provider w) l.

Lemma race_eq (c : cand) (w : world) :
  race c w = (inr (race_result w c), log_effect (ECall (c_model c)) w).
Proof. unfold race, race_result, bind, emit, read, ret. simpl.
  destruct (w_provider w (c_model c) (c_timeout c)); reflexivity. Qed.

Lemma with_log_log_effect (w : world) (l : list effect) (e : effect) :
  log_effect e (with_log w l) = with_log w (l ++ [e]).
Proof. reflexivity. Qed.

Lemma with_log_self (w : world) : with_log w (w_log w) = w.
Proof. destruct w; reflexivity. Qed.

Lemma log_effect_twice (w : world) (e1 e2 : effect) :
  log_effect e2 (log_effect e1 w) = with_log w (w_log w ++ [e1; e2]).
Proof. destruct w. unfold log_effect, with_log. simpl. rewrite <- app_assoc. reflexivity. Qed.

Lemma race_result_with_log (w : world) (l : list effect) (c : cand) :
  race_result (with_log w l) c = race_result w c.
Proof. reflexivity. Qed.

(** A candidate that fails with an error the route retries on hands
    control to the rest of the list. *)
Lemma fallback_retry_step (retryable : exn -> bool) (c : cand) (rest : list cand)
      (resp : jsval) (le : option exn) (w : world) (e : exn) :
  race_result w c = inl e -> retryable e = true ->
  fallback retryable (c :: rest) resp le w =
  fallback retryable rest resp (Some e) (log_effect (ECall (c_model c)) w).
Proof.
  intros Hr Hy. simpl. unfold bind at 1. rewrite race_eq, Hr. simpl. rewrite Hy. reflexivity.
Qed.

(** A candidate that fails with an error the route does not retry on
    ends the loop. *)
Lemma fallback_fatal_step (retryable : exn -> bool) (c : cand) (rest : list cand)
      (resp : jsval) (le : option exn) (w : world) (e : exn) :
  race_result w c = inl e -> retryable e = false ->
  fallback retryable (c :: rest) resp le w =
  (inr (resp, Some e), log_effect (ECall (c_model c)) w).
Proof.
  intros Hr Hy. simpl. unfold bind at 1. rewrite race_eq, Hr. simpl. rewrite Hy. reflexivity.
Qed.

Lemma fallback_retry_prefix (retryable : exn -> bool) (pre rest : list cand)
      (resp : jsval) (le : option exn) (w : world) :
  Forall (fun m => exists e', race_result w m = inl e' /\ retryable e' = true) pre ->
  exists le',
    fallback retryable (pre ++ rest) resp le w =
    fallback retryable rest resp le' (with_log w (w_log w ++ calls pre)).
Proof.
  revert le w. induction pre as [|m pre IH]; intros le w Hall.
  - exists le. simpl. rewrite app_nil_r, with_log_self. reflexivity.
  - inversion Hall as [|? ? [e' [Hr Hy]] Hpre]; subst.
    simpl app. rewrite (fallback_retry_step _ _ _ _ _ _ e' Hr Hy).
    assert (Hpre' : Forall (fun m0 => exists e'0,
              race_result (log_effect (ECall (c_model m)) w) m0 = inl e'0 /\ retryable e'0 = true) pre).
    { eapply Forall_impl; [|exact Hpre]. intros x [e0 [H1 H2]]. exists e0. split; assumption. }
    destruct (IH (Some e') _ Hpre') as [le' Heq]. exists le'. rewrite Heq.
    f_equal. simpl. rewrite <- app_assoc. reflexivity.
Qed.

(** Concrete inputs used by the examples and witnesses below. *)
Definition ext0 : ext :=
  Ext (fun _ => "aGVsbG8=") (fun _ => []) (fun _ => inr []) (fun _ => "{}")
      (fun b => inr b) (fun b _ => inr b) (fun _ => inr "").

Definition provider_of (l : list (string * call_outcome)) : string -> Z -> call_outcome :=
  fun m _ => match assoc m l with Some o => o | None => Rejects (new_Error "unknown model") end.

Definition world0 (users : list user) (recs : list genrec) (up : bool)
           (prov : list (string * call_outcome)) : world :=
  World users recs (3 * ms_per_day + 5000) 0 up (provider_of prov) [].

(** ** C1: a timeout in the background-removal loop *)

Definition bg_timeout_world : world :=
  world0 [User "u1" true] [] true
    [("briaai/RMBG-2.0", TimerFirst);
     ("CIDAS/clipseg-rd64-refined", Resolves (JStr "bWFzaw=="));
     ("rembg/rembg", Resolves (JStr "bWFzaw=="))].

(** In the image route the same provider behaviour moves on to the next
    model and succeeds. *)
Example image_timeout_falls_through :
  fst (image_route ext0 "u1" (ImageBody (Some "a red fox") None None)
         (world0 [User "u1" true] [] true
            [("black-forest-labs/FLUX.1-dev", TimerFirst);
             ("stabilityai/stable-diffusion-xl-base-1.0", Resolves (JStr "aW1n"))]))
  = inr (json (JObj [("image", JStr "aW1n")])).
Proof. reflexivity. Qed.

(** In the image and resume routes a timeout always hands over to the
    next candidate. *)
Lemma timeout_or_credit_retries_timeout (c : cand) (rest : list cand)
      (resp : jsval) (le : option exn) (w : world) :
  w_provider w (c_model c) (c_timeout c) = TimerFirst ->
  fallback timeout_or_credit (c :: rest) resp le w =
  fallback timeout_or_credit rest resp (Some timeout_error) (log_effect (ECall (c_model c)) w).
Proof.
  intros H. apply fallback_retry_step; [unfold race_result; rewrite H|]; reflexivity.
Qed.

(** C1 (code_bug): when the first background-removal model times out,
    the loop stops after that one model although two untried models
    remain (the second would have answered), and the request fails with
    the timeout message. *)
Lemma bg_timeout_stops_fallback :
  fallback credit_only bg_models JUndef None bg_timeout_world
  = (inr (JUndef, Some timeout_error), with_log bg_timeout_world [ECall "briaai/RMBG-2.0"])
  /\ fst (bg_route ext0 "u1" (Some (Upload "cat.png" [])) bg_timeout_world)
     = inr (error_resp 500 "Image processing timed out. Please try again.").
Proof. split; reflexivity. Qed.

(** ** C2: a fatal failure ends the fallback *)

(** C2: in any route's fallback loop, once a candidate fails with an
    error the route does not retry on, no later candidate is called and
    the loop's outcome is that error (AllFailed with the last observed
    error), whatever the later candidates would have done. *)
Theorem fatal_failure_stops_fallback (retryable : exn -> bool) (pre : list cand) (c : cand)
        (post : list cand) (w : world) (e : exn) :
  Forall (fun m => exists e', race_result w m = inl e' /\ retryable e' = true) pre ->
  race_result w c = inl e -> retryable e = false ->
  run_fallback retryable (pre ++ c :: post) w
  = (inl e, with_log w (w_log w ++ calls (pre ++ [c]))).
Proof.
  intros Hpre Hc Hf. unfold run_fallback, bind.
  destruct (fallback_retry_prefix retryable pre (c :: post) JUndef None w Hpre) as [le' ->].
  rewrite (fallback_fatal_step retryable c post JUndef le' _ e); [|rewrite race_result_with_log; exact Hc|exact Hf].
  simpl. unfold calls. rewrite map_app, app_assoc. reflexivity.
Qed.

Definition fatal_world : world :=
  world0 [User "u1" true] [] true
    [("black-forest-labs/FLUX.1-dev", TimerFirst);
     ("stabilityai/stable-diffusion-xl-base-1.0", Rejects (Exn "Bad Request" (Some 400)));
     ("runwayml/stable-diffusion-v1-5", Resolves (JStr "aW1n"))].

Lemma fatal_failure_stops_fallback_witness :
  run_fallback timeout_or_credit image_models fatal_world
  = (inl (Exn "Bad Request" (Some 400)),
     with_log fatal_world (calls [Cand "black-forest-labs/FLUX.1-dev" 90000;
                                  Cand "stabilityai/stable-diffusion-xl-base-1.0" 75000])).
Proof.
  apply (fatal_failure_stops_fallback timeout_or_credit
           [Cand "black-forest-labs/FLUX.1-dev" 90000]
           (Cand "stabilityai/stable-diffusion-xl-base-1.0" 75000)
           [Cand "runwayml/stable-diffusion-v1-5" 60000] fatal_world).
  - constructor; [|constructor]. exists timeout_error. split; reflexivity.
  - reflexivity.
  - reflexivity.
Defined.

(** ** C3, C4, C5: the daily quota check *)

Definition find_user (uid : string) (w : world) : option user :=
  find (fun u => String.eqb (u_id u) uid) (w_users w).

(** The usage count the middleware computes for [uid] and [f] in [w]. *)
Definition todays_usage (w : world) (uid f : string) : nat :=
  usage_count (w_records w) uid f (start_of_utc_day (w_now w)).

Lemma quota_admits_iff_below_limit_gen (f uid : string) (u : user) (w : world) (l : Z)
        (h : M response) :
  find_user uid w = Some u -> u_isPremium u = false -> limit_of f = LNum l ->
  (fst (enforceDailyLimit f uid w) = inr Next <-> Z.of_nat (todays_usage w uid f) < l) /\
  (Z.of_nat (todays_usage w uid f) < l ->
   chain (enforceDailyLimit f uid) h w
   = h (with_log w (w_log w ++ [EFindUser uid; ECount uid f (start_of_utc_day (w_now w))]))) /\
  (l <= Z.of_nat (todays_usage w uid f) ->
   chain (enforceDailyLimit f uid) h w
   = (inr (quota_exceeded f (LNum l)),
      with_log w (w_log w ++ [EFindUser uid; ECount uid f (start_of_utc_day (w_now w))]))).
Proof.
  unfold find_user, todays_usage. intros Hu Hp Hl.
  unfold chain, enforceDailyLimit, findUser, countGenerations, bind, emit, read, ret. simpl.
  rewrite Hu, Hp, Hl. simpl. rewrite log_effect_twice.
  destruct (l <=? Z.of_nat (usage_count (w_records w) uid f
              (start_of_utc_day (w_now w)))) eqn:E.
  - apply Z.leb_le in E.
    split; [split; intros H; [discriminate H | lia]|].
    split; [intros; lia | intros; reflexivity].
  - apply Z.leb_gt in E.
    split; [split; intros; [lia | reflexivity]|].
    split; [intros; reflexivity | intros; lia].
Qed.

(** C3: for a non-premium user and a feature with a numeric limit [l],
    the middleware calls [next()] exactly when today's count of the
    user's records for the feature is below [l]; otherwise the route
    answers 429 without running the handler, so no provider is called
    (the log holds only the user lookup and the count). *)
Theorem quota_admits_iff_below_limit (f uid : string) (u : user) (w : world) (l : Z)
        (h : M response) :
  find_user uid w = Some u -> u_isPremium u = false -> limit_of f = LNum l ->
  (fst (enforceDailyLimit f uid w) = inr Next <-> Z.of_nat (todays_usage w uid f) < l) /\
  (Z.of_nat (todays_usage w uid f) < l ->
   chain (enforceDailyLimit f uid) h w
   = h (with_log w (w_log w ++ [EFindUser uid; ECount uid f (start_of_utc_day (w_now w))]))) /\
  (l <= Z.of_nat (todays_usage w uid f) ->
   chain (enforceDailyLimit f uid) h w
   = (inr (quota_exceeded f (LNum l)),
      with_log w (w_log w ++ [EFindUser uid; ECount uid f (start_of_utc_day (w_now w))]))).
Proof. exact (quota_admits_iff_below_limit_gen f uid u w l h). Qed.

Definition free_user_world : world :=
  world0 [User "u1" false]
    (map (fun i => GenRec ("r" ++ string_of_nat i) "u1" "image-generator" JNull JNull
                          (3 * ms_per_day + Z.of_nat i))
         (seq 0 10)) true [].

Lemma quota_admits_iff_below_limit_witness :
  find_user "u1" free_user_world = Some (User "u1" false) /\
  limit_of "image-generator" = LNum 10 /\
  chain (enforceDailyLimit "image-generator" "u1") (ret (json JNull)) free_user_world
  = (inr (quota_exceeded "image-generator" (LNum 10)),
     with_log free_user_world
       [EFindUser "u1"; ECount "u1" "image-generator" (3 * ms_per_day)]).
Proof.
  split; [reflexivity|]. split; [reflexivity|].
  destruct (quota_admits_iff_below_limit "image-generator" "u1" (User "u1" false)
              free_user_world 10 (ret (json JNull)) eq_refl eq_refl eq_refl) as [_ [_ H]].
  apply H. vm_compute. discriminate.
Defined.

Lemma premium_always_admitted_gen (f uid : string) (u : user) (w : world) :
  find_user uid w = Some u -> u_isPremium u = true ->
  enforceDailyLimit f uid w = (inr Next, with_log w (w_log w ++ [EFindUser uid])).
Proof.
  unfold find_user. intros Hu Hp.
  unfold enforceDailyLimit, findUser, bind, emit, read, ret. simpl.
  rewrite Hu, Hp. reflexivity.
Qed.

(** C4: for a premium user the middleware calls [next()] right after the
    user lookup; no usage count is queried. *)
Theorem premium_always_admitted (f uid : string) (u : user) (w : world) :
  find_user uid w = Some u -> u_isPremium u = true ->
  enforceDailyLimit f uid w = (inr Next, with_log w (w_log w ++ [EFindUser uid])).
Proof. exact (premium_always_admitted_gen f uid u w). Qed.

Definition premium_world : world :=
  world0 [User "u9" true]
    (map (fun i => GenRec (string_of_nat i) "u9" "image-generator" JNull JNull (3 * ms_per_day))
         (seq 0 50)) true [].

Lemma premium_always_admitted_witness :
  enforceDailyLimit "image-generator" "u9" premium_world
  = (inr Next, with_log premium_world [EFindUser "u9"]).
Proof.
  exact (premium_always_admitted "image-generator" "u9" (User "u9" true) premium_world
           eq_refl eq_refl).
Defined.

Lemma enforceDailyLimit_found (f uid : string) (u : user) (w : world) :
  find_user uid w = Some u ->
  fst (enforceDailyLimit f uid w)
  = inr (if u_isPremium u then Next
         else if limit_reached (todays_usage w uid f) (limit_of f)
              then Respond (quota_exceeded f (limit_of f)) else Next).
Proof.
  unfold find_user, todays_usage. intros Hu.
  unfold enforceDailyLimit, findUser, countGenerations, bind, emit, read, ret. simpl.
  rewrite Hu. destruct (u_isPremium u); [reflexivity|]. simpl.
  destruct (limit_reached _ _); reflexivity.
Qed.

Definition route_features : list string :=
  ["article-generator"; "image-generator"; "background-remover"; "resume-analyzer"].

(** C5 (counterexample): a feature with no entry in the table gets the
    limit 0, not 10: a non-premium user with no usage at all is denied. *)
Lemma unknown_feature_limit_is_zero :
  limit_of "text-summarizer" = LNum 0 /\
  fst (enforceDailyLimit "text-summarizer" "u1" (world0 [User "u1" false] [] true []))
  = inr (Respond (quota_exceeded "text-summarizer" (LNum 0))).
Proof. split; reflexivity. Qed.

(** C5 (amended): the limit is the table's value, 10 for each of the four
    features; a name with no entry gets [?? 0], i.e. 0, except the names a
    plain object inherits from [Object.prototype], whose value is not a
    number. So for a non-premium user the middleware admits a listed
    feature while today's count is below 10, always denies (429) a name
    with no entry, and always admits an inherited name, for which
    [count >= limit] is false. *)
Theorem limit_table_default_zero (f uid : string) (u : user) (w : world) :
  find_user uid w = Some u -> u_isPremium u = false ->
  limit_of f =
    (if existsb (String.eqb f) route_features then LNum 10
     else if existsb (String.eqb f) object_prototype_keys then LNonNumeric else LNum 0) /\
  fst (enforceDailyLimit f uid w) =
    inr (if existsb (String.eqb f) route_features then
           (if 10 <=? Z.of_nat (todays_usage w uid f)
            then Respond (quota_exceeded f (LNum 10)) else Next)
         else if existsb (String.eqb f) object_prototype_keys then Next
         else Respond (quota_exceeded f (LNum 0))).
Proof.
  intros Hu Hp.
  assert (Hl : limit_of f =
    (if existsb (String.eqb f) route_features then LNum 10
     else if existsb (String.eqb f) object_prototype_keys then LNonNumeric else LNum 0)).
  { unfold limit_of, route_features, FREE_LIMITS. simpl.
    destruct (String.eqb f "article-generator"); [reflexivity|].
    destruct (String.eqb f "image-generator"); [reflexivity|].
    destruct (String.eqb f "background-remover"); [reflexivity|].
    destruct (String.eqb f "resume-analyzer"); reflexivity. }
  split; [exact Hl|].
  rewrite (enforceDailyLimit_found f uid u w Hu), Hp, Hl.
  destruct (existsb (String.eqb f) route_features); [reflexivity|].
  destruct (existsb (String.eqb f) object_prototype_keys); [reflexivity|].
  unfold limit_reached. replace (0 <=? Z.of_nat (todays_usage w uid f)) with true
    by (symmetry; apply Z.leb_le; lia). reflexivity.
Qed.

Lemma limit_table_default_zero_witness :
  find_user "u1" free_user_world = Some (User "u1" false) /\
  fst (enforceDailyLimit "toString" "u1" free_user_world) = inr Next.
Proof.
  split; [reflexivity|].
  exact (proj2 (limit_table_default_zero "toString" "u1" (User "u1" false) free_user_world
                  eq_refl eq_refl)).
Defined.

(** ** C6: prompt validation runs after the quota check *)

Definition prompt_too_short : response := error_resp 400 "Prompt must be at least 3 characters.".

Lemma image_handler_short_prompt (ex : ext) (uid p : string) (style size : option string) (w : world) :
  String.eqb uid "" = false -> (String.length (trim p) < 3)%nat ->
  image_handler ex uid (ImageBody (Some p) style size) w = (inr prompt_too_short, w).
Proof.
  intros Hu Hp. unfold image_handler. simpl. rewrite Hu.
  apply Nat.ltb_lt in Hp. rewrite Hp, orb_true_r. reflexivity.
Qed.

(** C6 (counterexample): a non-premium user who already has 10 image
    records today sends the one-character prompt "a": the quota check
    runs (its count query is in the log) and the answer is the 429 quota
    error, not the 400 validation error that the same prompt gets with
    no usage. *)
Lemma short_prompt_meets_quota_first :
  image_route ext0 "u1" (ImageBody (Some "a") None None) free_user_world
  = (inr (quota_exceeded "image-generator" (LNum 10)),
     with_log free_user_world [EFindUser "u1"; ECount "u1" "image-generator" (3 * ms_per_day)]) /\
  fst (image_route ext0 "u1" (ImageBody (Some "a") None None)
         (world0 [User "u1" false] [] true []))
  = inr prompt_too_short.
Proof. split; reflexivity. Qed.

(** C6 (amended): a prompt shorter than 3 characters after trimming is
    never sent to a provider and never recorded, but the quota check runs
    first: a premium user, or a non-premium user below the limit, gets the
    400 validation error; a non-premium user at the limit gets the 429
    quota error. *)
Theorem short_prompt_rejected_after_quota (ex : ext) (uid : string) (u : user) (p : string)
        (style size : option string) (w : world) :
  String.eqb uid "" = false -> find_user uid w = Some u -> (String.length (trim p) < 3)%nat ->
  image_route ex uid (ImageBody (Some p) style size) w =
  if u_isPremium u then (inr prompt_too_short, with_log w (w_log w ++ [EFindUser uid]))
  else
    let lg := with_log w (w_log w ++ [EFindUser uid;
                ECount uid "image-generator" (start_of_utc_day (w_now w))]) in
    if 10 <=? Z.of_nat (todays_usage w uid "image-generator")
    then (inr (quota_exceeded "image-generator" (LNum 10)), lg)
    else (inr prompt_too_short, lg).
Proof.
  intros Hu Hf Hp. unfold image_route.
  destruct (u_isPremium u) eqn:Hprem.
  - unfold chain, bind at 1. rewrite (premium_always_admitted_gen _ _ u w Hf Hprem).
    apply image_handler_short_prompt; assumption.
  - destruct (quota_admits_iff_below_limit_gen "image-generator" uid u w 10
                (image_handler ex uid (ImageBody (Some p) style size)) Hf Hprem eq_refl)
      as [_ [Hadm Hden]].
    simpl.
    destruct (10 <=? Z.of_nat (todays_usage w uid "image-generator")) eqn:E.
    + apply Z.leb_le in E. apply Hden. exact E.
    + apply Z.leb_gt in E. rewrite (Hadm E). apply image_handler_short_prompt; assumption.
Qed.

Lemma short_prompt_rejected_after_quota_witness :
  image_route ext0 "u1" (ImageBody (Some " a ") None None) free_user_world
  = (inr (quota_exceeded "image-generator" (LNum 10)),
     with_log free_user_world [EFindUser "u1"; ECount "u1" "image-generator" (3 * ms_per_day)]).
Proof.
  refine (short_prompt_rejected_after_quota ext0 "u1" (User "u1" false) " a " None None
            free_user_world eq_refl eq_refl _).
  vm_compute. lia.
Defined.

(** ** C7: a failed history write turns a provider success into an error *)

(** The computation never changes whether the database is up. *)
Definition db_stable {A} (m : M A) : Prop :=
  forall w, w_db_up (snd (m w)) = w_db_up w.

(** With the database down, the computation never answers 200. *)
Definition never_ok (m : M response) : Prop :=
  forall w r w', w_db_up w = false -> m w = (inr r, w') -> r_status r <> 200.

Create HintDb dbinv.

Lemma db_stable_ret {A} (a : A) : db_stable (ret a).
Proof. intros w; reflexivity. Qed.
Lemma db_stable_throw {A} (e : exn) : db_stable (A := A) (throw e).
Proof. intros w; reflexivity. Qed.
Lemma db_stable_emit (e : effect) : db_stable (emit e).
Proof. intros w; reflexivity. Qed.
Lemma db_stable_read {A} (f : world -> A) : db_stable (read f).
Proof. intros w; reflexivity. Qed.
Lemma db_stable_lift {A} (r : exn + A) : db_stable (lift r).
Proof. destruct r; intros w; reflexivity. Qed.

Lemma db_stable_bind {A B} (m : M A) (k : A -> M B) :
  db_stable m -> (forall a, db_stable (k a)) -> db_stable (bind m k).
Proof.
  intros Hm Hk w. unfold bind. specialize (Hm w).
  destruct (m w) as [[e|a] w1]; simpl in *; [exact Hm|]. rewrite Hk. exact Hm.
Qed.

Lemma db_stable_try {A} (m : M A) (h : exn -> M A) :
  db_stable m -> (forall e, db_stable (h e)) -> db_stable (try_catch m h).
Proof.
  intros Hm Hh w. unfold try_catch. specialize (Hm w).
  destruct (m w) as [[e|a] w1]; simpl in *; [rewrite Hh|]; exact Hm.
Qed.

Lemma db_stable_create (uid f : string) (i o : jsval) : db_stable (createGeneration uid f i o).
Proof. intros w. unfold createGeneration. destruct (w_db_up w) eqn:E; simpl; auto. Qed.

#[local] Hint Resolve db_stable_ret db_stable_throw db_stable_emit db_stable_read
  db_stable_lift db_stable_create : dbinv.

Ltac db_solve :=
  repeat (first
    [ solve [eauto with dbinv]
    | apply db_stable_bind; [|intro]
    | apply db_stable_try; [|intro]
    | progress cbv zeta
    | match goal with
      | |- db_stable (if ?b then _ else _) => destruct b
      | |- db_stable (match ?x with _ => _ end) => destruct x
      | |- context [let '(_, _) := ?p in _] => destruct p
      end ]).

Lemma db_stable_race (c : cand) : db_stable (race c).
Proof. unfold race. db_solve. Qed.
#[local] Hint Resolve db_stable_race : dbinv.

Lemma db_stable_fallback (retryable : exn -> bool) (cs : list cand) (resp : jsval) (le : option exn) :
  db_stable (fallback retryable cs resp le).
Proof.
  revert resp le. induction cs as [|c cs IH]; intros resp le; simpl; db_solve.
Qed.
#[local] Hint Resolve db_stable_fallback : dbinv.

Lemma db_stable_run_fallback (retryable : exn -> bool) (cs : list cand) :
  db_stable (run_fallback retryable cs).
Proof. unfold run_fallback, settle. db_solve. Qed.

Lemma db_stable_convertToBase64 (ex : ext) (v : jsval) : db_stable (convertToBase64 ex v).
Proof. unfold convertToBase64. db_solve. Qed.

Lemma db_stable_replace_data_uri (x : jsval) : db_stable (replace_data_uri x).
Proof. unfold replace_data_uri. db_solve. Qed.
#[local] Hint Resolve db_stable_replace_data_uri : dbinv.

Lemma db_stable_extract_mask (ex : ext) (v : jsval) : db_stable (extract_mask ex v).
Proof. unfold extract_mask. db_solve. Qed.

Lemma db_stable_enforceDailyLimit (f uid : string) : db_stable (enforceDailyLimit f uid).
Proof. unfold enforceDailyLimit, findUser, countGenerations. db_solve. Qed.

#[local] Hint Resolve db_stable_run_fallback db_stable_convertToBase64 db_stable_extract_mask
  db_stable_enforceDailyLimit : dbinv.

Lemma never_ok_ret (r : response) : r_status r <> 200 -> never_ok (ret r).
Proof. intros H w r' w' _ E. inversion E; subst. exact H. Qed.

Lemma never_ok_throw (e : exn) : never_ok (throw e).
Proof. intros w r w' _ E. discriminate E. Qed.

Lemma never_ok_bind {A} (m : M A) (k : A -> M response) :
  db_stable m -> (forall a, never_ok (k a)) -> never_ok (bind m k).
Proof.
  intros Hm Hk w r w' Hd E. unfold bind in E. specialize (Hm w).
  destruct (m w) as [[e|a] w1] eqn:Em; simpl in Hm; [discriminate E|].
  apply (Hk a w1 r w'); [congruence | exact E].
Qed.

Lemma never_ok_try (m : M response) (h : exn -> M response) :
  db_stable m -> never_ok m -> (forall e, never_ok (h e)) -> never_ok (try_catch m h).
Proof.
  intros Hs Hm Hh w r w' Hd E. unfold try_catch in E. specialize (Hs w).
  destruct (m w) as [[e|a] w1] eqn:Em; simpl in Hs.
  - apply (Hh e w1 r w'); [congruence | exact E].
  - injection E as <- <-. exact (Hm w a w1 Hd Em).
Qed.

(** The insert throws when the database is down, so nothing after it runs. *)
Lemma never_ok_after_create (uid f : string) (i o : jsval) (k : genrec -> M response) :
  never_ok (bind (createGeneration uid f i o) k).
Proof.
  intros w r w' Hd E. unfold bind, createGeneration in E. rewrite Hd in E. discriminate E.
Qed.

(** The quota middleware answers only 401 or 429. *)
Lemma enforceDailyLimit_not_ok (f uid : string) (w w' : world) (r : response) :
  enforceDailyLimit f uid w = (inr (Respond r), w') -> r_status r <> 200.
Proof.
  unfold enforceDailyLimit, findUser, countGenerations, bind, emit, read, ret. simpl.
  destruct (find _ _) as [u|]; [|intros E; inversion E; subst; discriminate].
  destruct (u_isPremium u); [discriminate|]. simpl.
  destruct (limit_reached _ _); intros E; inversion E; subst; discriminate.
Qed.

Lemma never_ok_route (f uid : string) (h : M response) :
  never_ok h -> never_ok (chain (enforceDailyLimit f uid) h).
Proof.
  intros Hh w r w' Hd E. unfold chain, bind in E.
  pose proof (db_stable_enforceDailyLimit f uid w) as Hs.
  destruct (enforceDailyLimit f uid w) as [[e|[|resp]] w1] eqn:Em; simpl in Hs.
  - discriminate E.
  - apply (Hh w1 r w'); [congruence | exact E].
  - inversion E; subst. exact (enforceDailyLimit_not_ok f uid w w' r Em).
Qed.

Ltac never_ok_solve :=
  repeat (first
    [ apply never_ok_after_create
    | apply never_ok_bind; [solve [db_solve] | intro]
    | apply never_ok_try; [solve [db_solve] | | intro]
    | apply never_ok_throw
    | apply never_ok_ret; simpl; discriminate
    | progress cbv zeta
    | match goal with
      | |- never_ok (if ?b then _ else _) => destruct b
      | |- never_ok (match ?x with _ => _ end) => destruct x
      end ]).

(** C7 (counterexample): the first image model answers, the database is
    down: the user gets the 500 error "Image generation failed" and not
    the image. *)
Lemma storage_failure_hides_output :
  fst (image_route ext0 "u9" (ImageBody (Some "a red fox") None None)
         (world0 [User "u9" true] [] false
            [("black-forest-labs/FLUX.1-dev", Resolves (JStr "aW1n"))]))
  = inr (error_resp 500 "Image generation failed").
Proof. reflexivity. Qed.

(** C7 (amended): in the image, background-removal and resume routes
    the history insert is awaited inside the handler's [try] before the
    answer is sent; when it fails the [catch] answers with a 500 error,
    so with the database down no request of these routes is answered
    with the generated output (no answer has status 200). *)
Theorem storage_failure_no_success (ex : ext) (uid : string) (b : image_body)
        (file : option upload) :
  never_ok (image_route ex uid b) /\
  never_ok (bg_route ex uid file) /\
  never_ok (resume_route ex uid file).
Proof.
  split; [|split].
  - apply never_ok_route. unfold image_handler. never_ok_solve.
  - apply never_ok_route. unfold bg_handler. never_ok_solve.
  - apply never_ok_route. unfold resume_handler. never_ok_solve.
Qed.

(** ** C10: the resume placeholder analysis *)

(** C10: when the resume model's answer has no choices, the handler uses
    the fixed text "No analysis returned." as the analysis, stores a
    history row whose output is that text and answers 200 with it. *)
Theorem resume_placeholder_recorded (ex : ext) (uid : string) (f : upload) (text : string)
        (w w1 : world) (completion : jsval) :
  String.eqb uid "" = false -> w_db_up w = true ->
  pdf_text ex (up_buffer f) = inr text -> (100 <= String.length text)%nat ->
  run_fallback timeout_or_credit resume_models w = (inr completion, w1) ->
  get completion "choices" = JArr [] \/ get completion "choices" = JUndef ->
  exists w',
    resume_handler ex uid (Some f) w = (inr (json (JObj [("analysis", JStr no_analysis)])), w') /\
    w_records w' = (w_records w1 ++
      [GenRec ("g" ++ string_of_nat (w_next_id w1)) uid "resume-analyzer"
              (JObj [("filename", JStr (up_originalname f))])
              (JObj [("analysis", JStr no_analysis)]) (w_now w1)])%list.
Proof.
  intros Hu Hup Hpdf Hlen Hrun Hch.
  assert (Hup1 : w_db_up w1 = true).
  { pose proof (db_stable_run_fallback timeout_or_credit resume_models w) as Hs.
    rewrite Hrun in Hs. simpl in Hs. congruence. }
  assert (Ha : analysis_of completion = JStr no_analysis).
  { unfold analysis_of. destruct Hch as [Hc|Hc]; rewrite Hc; reflexivity. }
  apply Nat.ltb_ge in Hlen.
  unfold resume_handler, try_catch, bind, lift. rewrite Hpdf. simpl. rewrite Hlen.
  rewrite Hrun. rewrite Ha, Hu. unfold createGeneration. rewrite Hup1.
  eexists. split; reflexivity.
Qed.

Definition long_resume : string :=
  "Jane Doe. Software engineer with eight years of experience in distributed systems, Rust and Go.".

Definition resume_ext : ext :=
  Ext (fun _ => "") (fun _ => []) (fun _ => inr []) (fun _ => "{}")
      (fun b => inr b) (fun b _ => inr b) (fun _ => inr (long_resume ++ long_resume)).

Definition resume_world : world :=
  world0 [User "u1" false] [] true
    [("deepseek-ai/DeepSeek-R1-0528", TimerFirst);
     ("meta-llama/Llama-3.1-8B-Instruct", Resolves (JObj [("choices", JArr [])]))].

Lemma resume_placeholder_recorded_witness :
  exists w',
    resume_handler resume_ext "u1" (Some (Upload "cv.pdf" [])) resume_world
    = (inr (json (JObj [("analysis", JStr no_analysis)])), w') /\
    w_records w' =
      [GenRec "g0" "u1" "resume-analyzer" (JObj [("filename", JStr "cv.pdf")])
              (JObj [("analysis", JStr no_analysis)]) (3 * ms_per_day + 5000)].
Proof.
  refine (resume_placeholder_recorded resume_ext "u1" (Upload "cv.pdf" []) (long_resume ++ long_resume)
            resume_world (snd (run_fallback timeout_or_credit resume_models resume_world))
            (JObj [("choices", JArr [])]) eq_refl eq_refl eq_refl _ _ _).
  - vm_compute. lia.
  - reflexivity.
  - left. reflexivity.
Defined.

(** ** C9: the history listing *)

Definition newer_first (a b : genrec) : Prop := g_createdAt b <= g_createdAt a.

(** The user's rows in the order of [orderBy: { createdAt: "desc" }]. *)
Definition user_ordered (w : world) (uid : string) : list genrec :=
  sort_desc (filter (fun r => String.eqb (g_userId r) uid) (w_records w)).

Lemma insert_desc_sorted (r : genrec) (l : list genrec) :
  Sorted newer_first l -> Sorted newer_first (insert_desc r l).
Proof.
  induction l as [|x l IH]; intros H; simpl.
  - constructor; constructor.
  - destruct (g_createdAt x <? g_createdAt r) eqn:E.
    + apply Z.ltb_lt in E. constructor; [exact H|]. constructor. unfold newer_first. lia.
    + apply Z.ltb_ge in E. apply Sorted_inv in H as [H1 H2].
      constructor; [apply IH; exact H1|].
      destruct l as [|y l']; simpl.
      * constructor. unfold newer_first. lia.
      * destruct (g_createdAt y <? g_createdAt r); constructor; unfold newer_first; [lia|].
        inversion H2; assumption.
Qed.

Lemma sort_desc_sorted (l : list genrec) : Sorted newer_first (sort_desc l).
Proof.
  unfold sort_desc. assert (H : Sorted newer_first (@nil genrec)) by constructor.
  revert H. generalize (@nil genrec). induction l as [|r l IH]; intros acc H; simpl.
  - exact H.
  - apply IH. apply insert_desc_sorted. exact H.
Qed.

Lemma newer_first_trans : Transitive newer_first.
Proof. intros a b c H1 H2. unfold newer_first in *. lia. Qed.

Lemma ss_skipn {A} (R : A -> A -> Prop) (n : nat) (l : list A) :
  StronglySorted R l -> StronglySorted R (skipn n l).
Proof.
  revert l. induction n as [|n IH]; intros [|x l] H; simpl; auto.
  apply IH. apply StronglySorted_inv in H. tauto.
Qed.

Lemma forall_firstn {A} (P : A -> Prop) (n : nat) (l : list A) :
  Forall P l -> Forall P (firstn n l).
Proof.
  revert l. induction n as [|n IH]; intros [|x l] H; simpl; try constructor.
  - inversion H; assumption.
  - apply IH. inversion H; assumption.
Qed.

Lemma ss_firstn {A} (R : A -> A -> Prop) (n : nat) (l : list A) :
  StronglySorted R l -> StronglySorted R (firstn n l).
Proof.
  revert l. induction n as [|n IH]; intros [|x l] H; simpl; try constructor.
  - apply StronglySorted_inv in H as [H1 H2]. apply IH. exact H1.
  - apply StronglySorted_inv in H as [H1 H2]. apply forall_firstn. exact H2.
Qed.

Lemma ss_app {A} (R : A -> A -> Prop) (l1 l2 : list A) :
  StronglySorted R l1 -> StronglySorted R l2 ->
  (forall x y, In x l1 -> In y l2 -> R x y) -> StronglySorted R (l1 ++ l2).
Proof.
  induction l1 as [|x l1 IH]; intros H1 H2 H; simpl; [exact H2|].
  apply StronglySorted_inv in H1 as [H1a H1b]. constructor.
  - apply IH; [exact H1a | exact H2 |]. intros a b Ha Hb. apply H; simpl; auto.
  - apply Forall_app. split; [exact H1b|].
    apply Forall_forall. intros y Hy. apply H; simpl; auto.
Qed.

Lemma ss_rev {A} (R : A -> A -> Prop) (l : list A) :
  StronglySorted R l -> StronglySorted (fun a b => R b a) (rev l).
Proof.
  induction l as [|x l IH]; intros H; simpl; [constructor|].
  apply StronglySorted_inv in H as [H1 H2]. apply ss_app.
  - apply IH. exact H1.
  - constructor; constructor.
  - intros a b Ha Hb. destruct Hb as [<-|[]]. rewrite Forall_forall in H2.
    apply H2. apply in_rev. exact Ha.
Qed.

Lemma ss_page_forward (R : genrec -> genrec -> Prop) (l : list genrec) (c : option string)
      (skip take : nat) :
  StronglySorted R l -> StronglySorted R (page_forward l c skip take).
Proof.
  intros H. unfold page_forward. destruct c as [c|].
  - destruct (index_of_id c l); [|constructor]. apply ss_firstn, ss_skipn, H.
  - apply ss_firstn, ss_skipn, H.
Qed.

(** Every page Prisma returns is in descending [createdAt] order. *)
Lemma prisma_findMany_sorted (recs : list genrec) (uid : string) (take : Z)
      (c : option string) (skip : nat) :
  Sorted newer_first (prisma_findMany recs uid take c skip).
Proof.
  apply StronglySorted_Sorted. unfold prisma_findMany.
  pose proof (Sorted_StronglySorted newer_first_trans
                (sort_desc_sorted (filter (fun r => String.eqb (g_userId r) uid) recs))) as H.
  destruct (0 <=? take).
  - apply ss_page_forward. exact H.
  - apply (ss_rev (fun a b => newer_first b a)). apply ss_page_forward. apply ss_rev. exact H.
Qed.

Lemma history_handler_ok (uid : string) (q : history_query) (w w' : world) (pg : history_page) :
  history_handler uid q w = (inr (HistoryOk pg), w') ->
  exists t, take_of (page_limit (hq_limit q)) = inr t /\
    hp_limit pg = page_limit (hq_limit q) /\
    hp_history pg = prisma_findMany (w_records w) uid t
                      (fst (cursor_args (hq_cursor q))) (snd (cursor_args (hq_cursor q))).
Proof.
  unfold history_handler, try_catch, findManyHistory, countAll, bind, emit, read, lift, ret.
  simpl. destruct (take_of (page_limit (hq_limit q))) as [e|t]; simpl; intros H.
  - discriminate H.
  - destruct (cursor_args (hq_cursor q)) as [c skip]. simpl in H.
    injection H as <- _. exists t. simpl. auto.
Qed.

Definition history_world : world :=
  world0 [User "u1" false]
    [GenRec "ra" "u1" "image-generator" JNull JNull 300;
     GenRec "rb" "u1" "image-generator" JNull JNull 200;
     GenRec "rc" "u1" "image-generator" JNull JNull 100] true [].


(* ================================================================== *)
(** * Further properties of the fallback loop and the image route *)

Lemma fallback_success_step (retryable : exn -> bool) (c : cand) (rest : list cand)
      (resp : jsval) (le : option exn) (w : world) (v : jsval) :
  race_result w c = inr v ->
  fallback retryable (c :: rest) resp le w = (inr (v, le), log_effect (ECall (c_model c)) w).
Proof. intros Hr. simpl. unfold bind at 1. rewrite race_eq, Hr. reflexivity. Qed.

Lemma fallback_exhausted_gen (retryable : exn -> bool) (pre : list cand) (c : cand)
      (w : world) (e : exn) :
  Forall (fun m => exists e', race_result w m = inl e' /\ retryable e' = true) pre ->
  race_result w c = inl e -> retryable e = true ->
  run_fallback retryable (pre ++ [c]) w = (inl e, with_log w (w_log w ++ calls (pre ++ [c]))).
Proof.
  intros Hpre Hc Hy. unfold run_fallback, bind.
  destruct (fallback_retry_prefix retryable pre [c] JUndef None w Hpre) as [le' ->].
  rewrite (fallback_retry_step retryable c [] JUndef le' _ e); [|rewrite race_result_with_log; exact Hc|exact Hy].
  simpl. unfold calls. rewrite map_app, app_assoc. reflexivity.
Qed.

Definition credit_then_ok_world : world :=
  world0 [] [] true [("black-forest-labs/FLUX.1-dev", Rejects (Exn "Payment Required" (Some 402)));
                     ("stabilityai/stable-diffusion-xl-base-1.0", Resolves (JStr "aW1n"))].

Definition falsy_bg_world : world :=
  world0 [] [] true [("briaai/RMBG-2.0", Resolves (JStr ""))].

Definition resume_exhausted_world : world :=
  world0 [] [] true [("deepseek-ai/DeepSeek-R1-0528", TimerFirst);
                     ("meta-llama/Llama-3.1-8B-Instruct", TimerFirst);
                     ("microsoft/DialoGPT-medium", Rejects (Exn "Payment Required" (Some 402)))].

Lemma fallback_first_success_gen (retryable : exn -> bool) (pre : list cand) (c : cand)
        (post : list cand) (w : world) (v : jsval) :
  Forall (fun m => exists e', race_result w m = inl e' /\ retryable e' = true) pre ->
  race_result w c = inr v -> truthy v = true ->
  run_fallback retryable (pre ++ c :: post) w
  = (inr v, with_log w (w_log w ++ calls (pre ++ [c]))).
Proof.
  intros Hpre Hc Hv. unfold run_fallback, bind.
  destruct (fallback_retry_prefix retryable pre (c :: post) JUndef None w Hpre) as [le' ->].
  rewrite (fallback_success_step retryable c post JUndef le' _ v); [|rewrite race_result_with_log; exact Hc].
  simpl. rewrite Hv. unfold calls. rewrite map_app, app_assoc. reflexivity.
Qed.

(** The first candidate that answers with a truthy value wins: the
    candidates after it are never called and its value is the result. *)
Theorem fallback_first_success (retryable : exn -> bool) (pre : list cand) (c : cand)
        (post : list cand) (w : world) (v : jsval) :
  Forall (fun m => exists e', race_result w m = inl e' /\ retryable e' = true) pre ->
  race_result w c = inr v -> truthy v = true ->
  run_fallback retryable (pre ++ c :: post) w
  = (inr v, with_log w (w_log w ++ calls (pre ++ [c]))).
Proof. exact (fallback_first_success_gen retryable pre c post w v). Qed.

Lemma fallback_first_success_witness :
  run_fallback timeout_or_credit image_models credit_then_ok_world
  = (inr (JStr "aW1n"),
     with_log credit_then_ok_world
       (calls [Cand "black-forest-labs/FLUX.1-dev" 90000; Cand "stabilityai/stable-diffusion-xl-base-1.0" 75000])).
Proof.
  refine (fallback_first_success timeout_or_credit [Cand "black-forest-labs/FLUX.1-dev" 90000]
            (Cand "stabilityai/stable-diffusion-xl-base-1.0" 75000)
            [Cand "runwayml/stable-diffusion-v1-5" 60000] credit_then_ok_world (JStr "aW1n") _ eq_refl eq_refl).
  constructor; [|constructor]. exists (Exn "Payment Required" (Some 402)). split; reflexivity.
Defined.

(** The error the loop holds after a run of candidates that all fail:
    the last one's. *)
Definition last_error (w : world) (pre : list cand) (le : option exn) : option exn :=
  fold_left (fun acc m => match race_result w m with inl e => Some e | inr _ => acc end) pre le.

Lemma fallback_retry_prefix_exact (retryable : exn -> bool) (pre rest : list cand)
      (resp : jsval) (le : option exn) (w : world) :
  Forall (fun m => exists e', race_result w m = inl e' /\ retryable e' = true) pre ->
  fallback retryable (pre ++ rest) resp le w =
  fallback retryable rest resp (last_error w pre le) (with_log w (w_log w ++ calls pre)).
Proof.
  revert le w. induction pre as [|m pre IH]; intros le w Hall.
  - simpl. rewrite app_nil_r, with_log_self. reflexivity.
  - inversion Hall as [|? ? [e' [Hr Hy]] Hpre]; subst.
    simpl app. rewrite (fallback_retry_step _ _ _ _ _ _ e' Hr Hy).
    rewrite (IH (Some e') (log_effect (ECall (c_model m)) w) Hpre).
    unfold last_error. simpl fold_left at 2. rewrite Hr.
    f_equal. simpl. rewrite <- app_assoc. reflexivity.
Qed.

(** A candidate that answers with a falsy value (an empty string, [null],
    [0], ...) also ends the loop: the candidates after it are never
    called, and the request fails with the error of the last retried
    failure before it, or with "All models failed" when it was the first
    candidate tried. *)
Theorem fallback_falsy_success_fails (retryable : exn -> bool) (pre : list cand) (c : cand)
        (post : list cand) (w : world) (v : jsval) :
  Forall (fun m => exists e', race_result w m = inl e' /\ retryable e' = true) pre ->
  race_result w c = inr v -> truthy v = false ->
  run_fallback retryable (pre ++ c :: post) w
  = (inl (match last_error w pre None with Some e => e | None => new_Error "All models failed" end),
     with_log w (w_log w ++ calls (pre ++ [c]))).
Proof.
  intros Hpre Hc Hv. unfold run_fallback, bind.
  rewrite (fallback_retry_prefix_exact retryable pre (c :: post) JUndef None w Hpre).
  rewrite (fallback_success_step retryable c post JUndef _ _ v); [|rewrite race_result_with_log; exact Hc].
  simpl. rewrite Hv. unfold calls. rewrite map_app, app_assoc. reflexivity.
Qed.

Definition falsy_after_credit_world : world :=
  world0 [] [] true [("black-forest-labs/FLUX.1-dev", Rejects (Exn "Payment Required" (Some 402)));
                     ("stabilityai/stable-diffusion-xl-base-1.0", Resolves (JStr ""))].

Lemma fallback_falsy_success_fails_witness :
  fst (run_fallback timeout_or_credit image_models falsy_after_credit_world)
  = inl (Exn "Payment Required" (Some 402)) /\
  fst (run_fallback credit_only bg_models falsy_bg_world) = inl (new_Error "All models failed").
Proof.
  split.
  - exact (f_equal fst (fallback_falsy_success_fails timeout_or_credit [Cand "black-forest-labs/FLUX.1-dev" 90000]
             (Cand "stabilityai/stable-diffusion-xl-base-1.0" 75000) [Cand "runwayml/stable-diffusion-v1-5" 60000]
             falsy_after_credit_world (JStr "")
             ltac:(constructor; [exists (Exn "Payment Required" (Some 402)); split; reflexivity|constructor])
             eq_refl eq_refl)).
  - exact (f_equal fst (fallback_falsy_success_fails credit_only [] (Cand "briaai/RMBG-2.0" 60000)
             (tl bg_models) falsy_bg_world (JStr "") (Forall_nil _) eq_refl eq_refl)).
Defined.

(** When every candidate fails with a retried error, all of them are
    called in order and the request fails with the last one's error. *)
Theorem fallback_exhausted (retryable : exn -> bool) (pre : list cand) (c : cand)
        (w : world) (e : exn) :
  Forall (fun m => exists e', race_result w m = inl e' /\ retryable e' = true) pre ->
  race_result w c = inl e -> retryable e = true ->
  run_fallback retryable (pre ++ [c]) w = (inl e, with_log w (w_log w ++ calls (pre ++ [c]))).
Proof. exact (fallback_exhausted_gen retryable pre c w e). Qed.

Lemma fallback_exhausted_witness :
  run_fallback timeout_or_credit resume_models resume_exhausted_world
  = (inl (Exn "Payment Required" (Some 402)),
     with_log resume_exhausted_world (calls resume_models)).
Proof.
  refine (fallback_exhausted timeout_or_credit
            [Cand "deepseek-ai/DeepSeek-R1-0528" 45000; Cand "meta-llama/Llama-3.1-8B-Instruct" 40000]
            (Cand "microsoft/DialoGPT-medium" 35000) resume_exhausted_world _ _ eq_refl eq_refl).
  repeat constructor; exists timeout_error; split; reflexivity.
Defined.

Lemma valid_prompt_check (p : string) :
  (3 <= String.length (trim p))%nat ->
  (String.eqb p "" || (String.length (trim p) <? 3)%nat) = false.
Proof.
  intros Hl. destruct p as [|a p'].
  - simpl in Hl. lia.
  - simpl. apply Nat.ltb_ge. exact Hl.
Qed.

Ltac image_valid Hu Hp Hl :=
  unfold image_handler; rewrite (proj2 (String.eqb_neq _ _) Hu), Hp, (valid_prompt_check _ Hl).

Definition image_models_split (pre : list cand) (c : cand) (post : list cand) : Prop :=
  (pre ++ c :: post)%list = image_models.

Definition image_input (b : image_body) (p : string) : jsval :=
  JObj [("prompt", JStr p); ("style", opt_str (ib_style b)); ("size", opt_str (ib_size b))].

(** Image route: when all three image models time out, each of them has
    been tried, nothing is stored and the client gets a 500 with the
    timeout message. *)
Theorem image_all_timeouts (ex : ext) (uid : string) (b : image_body) (p : string) (w : world) :
  uid <> "" -> ib_prompt b = Some p -> (3 <= String.length (trim p))%nat ->
  (forall c, In c image_models -> w_provider w (c_model c) (c_timeout c) = TimerFirst) ->
  image_handler ex uid b w
  = (inr (error_resp 500 "Image generation timed out. Please try again."),
     with_log w (w_log w ++ calls image_models)).
Proof.
  intros Hu Hp Hl Ht. image_valid Hu Hp Hl.
  assert (Hr : forall c, In c image_models -> race_result w c = inl timeout_error).
  { intros c Hc. unfold race_result. rewrite (Ht c Hc). reflexivity. }
  unfold try_catch, bind at 1.
  change image_models with
    ([Cand "black-forest-labs/FLUX.1-dev" 90000; Cand "stabilityai/stable-diffusion-xl-base-1.0" 75000]
     ++ [Cand "runwayml/stable-diffusion-v1-5" 60000])%list.
  rewrite (fallback_exhausted_gen timeout_or_credit
             [Cand "black-forest-labs/FLUX.1-dev" 90000; Cand "stabilityai/stable-diffusion-xl-base-1.0" 75000]
             (Cand "runwayml/stable-diffusion-v1-5" 60000) w timeout_error).
  - reflexivity.
  - constructor; [|constructor; [|constructor]]; exists timeout_error;
      (split; [apply Hr; simpl; tauto | reflexivity]).
  - apply Hr. simpl. tauto.
  - reflexivity.
Qed.

Definition image_timeout_world : world :=
  world0 [] [] true [("black-forest-labs/FLUX.1-dev", TimerFirst);
                     ("stabilityai/stable-diffusion-xl-base-1.0", TimerFirst);
                     ("runwayml/stable-diffusion-v1-5", TimerFirst)].

Lemma image_all_timeouts_witness :
  image_handler ext0 "u1" (ImageBody (Some "a red fox") None None) image_timeout_world
  = (inr (error_resp 500 "Image generation timed out. Please try again."),
     with_log image_timeout_world (calls image_models)).
Proof.
  refine (image_all_timeouts ext0 "u1" (ImageBody (Some "a red fox") None None) "a red fox"
            image_timeout_world _ eq_refl _ _).
  - discriminate.
  - vm_compute. lia.
  - intros c Hc. simpl in Hc. destruct Hc as [<-|[<-|[<-|[]]]]; reflexivity.
Defined.

(** Image route, success path: when the first model that answers (after
    timeouts or 402s) returns a non-empty string and the database is up,
    the client receives that string as [image] and exactly one record is
    appended, for this user and feature "image-generator", holding the
    request fields and the same image. *)
Theorem image_success_recorded (ex : ext) (uid : string) (b : image_body) (p : string)
        (pre : list cand) (c : cand) (post : list cand) (s : string) (w : world) :
  uid <> "" -> ib_prompt b = Some p -> (3 <= String.length (trim p))%nat ->
  image_models_split pre c post ->
  Forall (fun m => exists e', race_result w m = inl e' /\ timeout_or_credit e' = true) pre ->
  race_result w c = inr (JStr s) -> s <> "" -> w_db_up w = true ->
  exists w',
    image_handler ex uid b w = (inr (json (JObj [("image", JStr s)])), w') /\
    w_records w' = (w_records w ++
      [GenRec ("g" ++ string_of_nat (w_next_id w)) uid "image-generator"
              (image_input b p) (JObj [("image", JStr s)]) (w_now w)])%list.
Proof.
  intros Hu Hp Hl Hsplit Hpre Hc Hs Hdb. image_valid Hu Hp Hl.
  unfold image_models_split in Hsplit. rewrite <- Hsplit.
  assert (Ht : truthy (JStr s) = true) by (simpl; rewrite (proj2 (String.eqb_neq _ _) Hs); reflexivity).
  unfold try_catch, bind at 1.
  rewrite (fallback_first_success_gen timeout_or_credit pre c post w (JStr s) Hpre Hc Ht).
  unfold bind, convertToBase64, ret. rewrite (proj2 (String.eqb_neq _ _) Hs).
  unfold createGeneration, with_log. cbn [w_db_up]. rewrite Hdb.
  eexists. split; reflexivity.
Qed.

Definition image_ok_world : world :=
  world0 [User "u1" false] [] true
    [("black-forest-labs/FLUX.1-dev", TimerFirst);
     ("stabilityai/stable-diffusion-xl-base-1.0", Resolves (JStr "aW1hZ2U="))].

Lemma image_success_recorded_witness :
  exists w',
    image_handler ext0 "u1" (ImageBody (Some "a red fox") (Some "anime") None) image_ok_world
    = (inr (json (JObj [("image", JStr "aW1hZ2U=")])), w') /\
    w_records w' = [GenRec "g0" "u1" "image-generator"
                      (JObj [("prompt", JStr "a red fox"); ("style", JStr "anime"); ("size", JUndef)])
                      (JObj [("image", JStr "aW1hZ2U=")]) (3 * ms_per_day + 5000)].
Proof.
  refine (image_success_recorded ext0 "u1" (ImageBody (Some "a red fox") (Some "anime") None) "a red fox"
            [Cand "black-forest-labs/FLUX.1-dev" 90000] (Cand "stabilityai/stable-diffusion-xl-base-1.0" 75000)
            [Cand "runwayml/stable-diffusion-v1-5" 60000] "aW1hZ2U=" image_ok_world
            _ eq_refl _ eq_refl _ eq_refl _ eq_refl).
  - discriminate.
  - vm_compute. lia.
  - constructor; [|constructor]. exists timeout_error. split; reflexivity.
  - discriminate.
Defined.

(** Image route: when the model's answer is an object with none of the
    fields [data], [buffer], [base64] or [image], nothing is stored and the
    client gets a 500 "Image generation service temporarily unavailable.". *)
Theorem image_unsupported_format (ex : ext) (uid : string) (b : image_body) (p : string)
        (pre : list cand) (c : cand) (post : list cand) (fs : list (string * jsval)) (w : world) :
  uid <> "" -> ib_prompt b = Some p -> (3 <= String.length (trim p))%nat ->
  image_models_split pre c post ->
  Forall (fun m => exists e', race_result w m = inl e' /\ timeout_or_credit e' = true) pre ->
  race_result w c = inr (JObj fs) ->
  assoc "data" fs = None -> assoc "buffer" fs = None ->
  assoc "base64" fs = None -> assoc "image" fs = None ->
  image_handler ex uid b w
  = (inr (error_resp 500 "Image generation service temporarily unavailable."),
     with_log w (w_log w ++ calls (pre ++ [c]))).
Proof.
  intros Hu Hp Hl Hsplit Hpre Hc H1 H2 H3 H4. image_valid Hu Hp Hl.
  unfold image_models_split in Hsplit. rewrite <- Hsplit.
  unfold try_catch, bind at 1.
  rewrite (fallback_first_success_gen timeout_or_credit pre c post w (JObj fs) Hpre Hc eq_refl).
  unfold bind, convertToBase64, get. rewrite H1, H2, H3, H4. reflexivity.
Qed.

Definition image_odd_world : world :=
  world0 [] [] true [("black-forest-labs/FLUX.1-dev", Resolves (JObj [("url", JStr "https://x")]))].

Lemma image_unsupported_format_witness :
  image_handler ext0 "u1" (ImageBody (Some "a red fox") None None) image_odd_world
  = (inr (error_resp 500 "Image generation service temporarily unavailable."),
     with_log image_odd_world (calls [Cand "black-forest-labs/FLUX.1-dev" 90000])).
Proof.
  refine (image_unsupported_format ext0 "u1" (ImageBody (Some "a red fox") None None) "a red fox"
            [] (Cand "black-forest-labs/FLUX.1-dev" 90000) (tl image_models) [("url", JStr "https://x")]
            image_odd_world _ eq_refl _ eq_refl (Forall_nil _) eq_refl eq_refl eq_refl eq_refl eq_refl).
  - discriminate.
  - vm_compute. lia.
Defined.

(* ------------------------------------------------------------------ *)
(** ** Computations that only append to the effect log *)

Local Open Scope list_scope.

Definition log_only {A} (m : M A) : Prop :=
  forall w, exists l, snd (m w) = with_log w l.

Create HintDb logonly.

Lemma with_log_with_log (w : world) (l1 l2 : list effect) :
  with_log (with_log w l1) l2 = with_log w l2.
Proof. reflexivity. Qed.

Lemma log_only_ret {A} (a : A) : log_only (ret a).
Proof. intros w. exists (w_log w). symmetry. apply with_log_self. Qed.
Lemma log_only_throw {A} (e : exn) : log_only (A := A) (throw e).
Proof. intros w. exists (w_log w). symmetry. apply with_log_self. Qed.
Lemma log_only_emit (e : effect) : log_only (emit e).
Proof. intros w. exists (w_log w ++ [e]). reflexivity. Qed.
Lemma log_only_read {A} (f : world -> A) : log_only (read f).
Proof. intros w. exists (w_log w). symmetry. apply with_log_self. Qed.
Lemma log_only_lift {A} (r : exn + A) : log_only (lift r).
Proof. destruct r; [apply log_only_throw | apply log_only_ret]. Qed.

Lemma log_only_bind {A B} (m : M A) (k : A -> M B) :
  log_only m -> (forall a, log_only (k a)) -> log_only (bind m k).
Proof.
  intros Hm Hk w. unfold bind. destruct (Hm w) as [l1 H1].
  destruct (m w) as [[e|a] w1]; simpl in *; subst w1; [exists l1; reflexivity|].
  destruct (Hk a (with_log w l1)) as [l2 H2]. exists l2. rewrite H2. reflexivity.
Qed.

Lemma log_only_try {A} (m : M A) (h : exn -> M A) :
  log_only m -> (forall e, log_only (h e)) -> log_only (try_catch m h).
Proof.
  intros Hm Hh w. unfold try_catch. destruct (Hm w) as [l1 H1].
  destruct (m w) as [[e|a] w1]; simpl in *; subst w1; [|exists l1; reflexivity].
  destruct (Hh e (with_log w l1)) as [l2 H2]. exists l2. rewrite H2. reflexivity.
Qed.

#[local] Hint Resolve log_only_ret log_only_throw log_only_emit log_only_read log_only_lift : logonly.

Ltac log_only_solve :=
  repeat (first
    [ solve [eauto with logonly]
    | apply log_only_bind; [|intro]
    | apply log_only_try; [|intro]
    | progress cbv zeta
    | match goal with
      | |- log_only (if ?b then _ else _) => destruct b
      | |- log_only (match ?x with _ => _ end) => destruct x
      | |- context [let '(_, _) := ?p in _] => destruct p
      end ]).

Lemma log_only_race (c : cand) : log_only (race c).
Proof. unfold race. log_only_solve. Qed.
#[local] Hint Resolve log_only_race : logonly.

Lemma log_only_fallback (retryable : exn -> bool) (cs : list cand) (resp : jsval) (le : option exn) :
  log_only (fallback retryable cs resp le).
Proof. revert resp le. induction cs as [|c cs IH]; intros resp le; simpl; log_only_solve. Qed.
#[local] Hint Resolve log_only_fallback : logonly.

Lemma log_only_run_fallback (retryable : exn -> bool) (cs : list cand) :
  log_only (run_fallback retryable cs).
Proof. unfold run_fallback, settle. log_only_solve. Qed.

Lemma log_only_convertToBase64 (ex : ext) (v : jsval) : log_only (convertToBase64 ex v).
Proof. unfold convertToBase64. log_only_solve. Qed.

Lemma log_only_replace_data_uri (x : jsval) : log_only (replace_data_uri x).
Proof. unfold replace_data_uri. log_only_solve. Qed.
#[local] Hint Resolve log_only_replace_data_uri : logonly.

Lemma log_only_extract_mask (ex : ext) (v : jsval) : log_only (extract_mask ex v).
Proof. unfold extract_mask. log_only_solve. Qed.

Lemma log_only_enforceDailyLimit (f uid : string) : log_only (enforceDailyLimit f uid).
Proof. unfold enforceDailyLimit, findUser, countGenerations. log_only_solve. Qed.

#[local] Hint Resolve log_only_run_fallback log_only_convertToBase64 log_only_extract_mask
  log_only_enforceDailyLimit : logonly.

(** Running [m] from [w] and landing in [w1]: [w1] differs from [w] only in its log. *)
Lemma log_only_run {A} (m : M A) (w w1 : world) (x : exn + A) :
  log_only m -> m w = (x, w1) -> exists l, w1 = with_log w l.
Proof. intros Hm E. destruct (Hm w) as [l H]. rewrite E in H. exists l. exact H. Qed.

(** The world after [createGeneration] succeeded from [w]. *)
Definition after_create (w : world) (uid feature : string) (i o : jsval) (l : list effect) : world :=
  World (w_users w)
        (w_records w ++ [GenRec ("g" ++ string_of_nat (w_next_id w))%string uid feature i o (w_now w)])
        (w_now w) (S (w_next_id w)) (w_db_up w) (w_provider w) l.

Ltac not_200 E H :=
  unfold lift, throw, ret in E; simpl in E; inversion E; subst; simpl in H; discriminate H.

(** What a 200 from the image handler leaves behind. *)
Lemma image_handler_ok (ex : ext) (uid : string) (b : image_body) (w w' : world) (r : response) :
  image_handler ex uid b w = (inr r, w') -> r_status r = 200 ->
  exists p s l, ib_prompt b = Some p /\ r = json (JObj [("image", JStr s)]) /\
    w' = after_create w uid "image-generator" (image_input b p) (JObj [("image", JStr s)]) l.
Proof.
  intros E H. unfold image_handler in E.
  destruct (String.eqb uid ""); [not_200 E H|].
  destruct (ib_prompt b) as [p|]; [|not_200 E H].
  destruct (_ || _)%bool; [not_200 E H|].
  unfold try_catch, bind at 1 in E.
  destruct (run_fallback timeout_or_credit image_models w) as [[e|v] w1] eqn:E1; [not_200 E H|].
  destruct (log_only_run _ _ _ _ (log_only_run_fallback _ _) E1) as [l1 ->].
  unfold bind at 1 in E.
  destruct (convertToBase64 ex v (with_log w l1)) as [[e|s] w2] eqn:E2; [not_200 E H|].
  destruct (log_only_run _ _ _ _ (log_only_convertToBase64 _ _) E2) as [l2 ->].
  destruct (String.eqb s ""); [not_200 E H|].
  unfold bind, createGeneration in E. simpl in E.
  destruct (w_db_up w) eqn:Hdb; [|not_200 E H].
  injection E as <- <-. exists p, s. eexists. split; [reflexivity|]. split; [reflexivity|].
  unfold after_create. rewrite Hdb. reflexivity.
Qed.

Lemma bind_ok {A B} (m : M A) (k : A -> M B) (w w' : world) (b : B) :
  bind m k w = (inr b, w') -> exists a w1, m w = (inr a, w1) /\ k a w1 = (inr b, w').
Proof. unfold bind. destruct (m w) as [[e|a] w1]; [discriminate|]. intros E. exists a, w1. auto. Qed.

Lemma try_ok {A} (m : M A) (h : exn -> M A) (w w' : world) (a : A) :
  try_catch m h w = (inr a, w') ->
  m w = (inr a, w') \/ exists e w1, m w = (inl e, w1) /\ h e w1 = (inr a, w').
Proof.
  unfold try_catch. destruct (m w) as [[e|b] w1]; intros E.
  - right. exists e, w1. auto.
  - left. exact E.
Qed.

Lemma lift_ok {A} (x : exn + A) (w w' : world) (a : A) :
  lift x w = (inr a, w') -> x = inr a /\ w' = w.
Proof. destruct x; unfold lift, throw, ret; intros E; inversion E; subst; auto. Qed.

Lemma create_ok (uid feature : string) (i o : jsval) (w w' : world) (g : genrec) :
  createGeneration uid feature i o w = (inr g, w') ->
  w' = after_create w uid feature i o (w_log w ++ [ECreate g]).
Proof.
  unfold createGeneration. destruct (w_db_up w) eqn:Hdb; intros E; inversion E; subst.
  unfold after_create. rewrite Hdb. reflexivity.
Qed.

(** What a 200 from the background-removal handler leaves behind. *)
Lemma bg_handler_ok (ex : ext) (uid : string) (file : option upload) (w w' : world) (r : response) :
  bg_handler ex uid file w = (inr r, w') -> r_status r = 200 ->
  exists f s l, file = Some f /\ r = json (JObj [("image", JStr s)]) /\
    w' = after_create w uid "background-remover" (JObj [("filename", JStr (up_originalname f))])
                      (JObj [("image", JStr s)]) l.
Proof.
  intros E H. unfold bg_handler in E.
  destruct (String.eqb uid ""); [not_200 E H|].
  destruct file as [f|]; [|not_200 E H].
  apply try_ok in E. destruct E as [E|(e & w1 & _ & E)]; [|not_200 E H].
  apply bind_ok in E as (cb & w1 & E1 & E). apply lift_ok in E1 as [_ ->].
  apply bind_ok in E as (v & w2 & E2 & E).
  destruct (log_only_run _ _ _ _ (log_only_run_fallback _ _) E2) as [l2 ->].
  apply bind_ok in E as (m & w3 & E3 & E).
  destruct (log_only_run _ _ _ _ (log_only_extract_mask _ _) E3) as [l3 ->].
  apply bind_ok in E as (ob & w4 & E4 & E). apply lift_ok in E4 as [_ ->].
  apply bind_ok in E as (g & w5 & E5 & E). apply create_ok in E5. subst w5.
  unfold ret in E. injection E as <- <-.
  exists f, (b64_encode ex ob). eexists. split; [reflexivity|]. split; reflexivity.
Qed.

(** What a 200 from the resume handler leaves behind. *)
Lemma resume_handler_ok (ex : ext) (uid : string) (file : option upload) (w w' : world) (r : response) :
  resume_handler ex uid file w = (inr r, w') -> r_status r = 200 ->
  exists f a l, file = Some f /\ r = json (JObj [("analysis", a)]) /\
    w' = after_create w uid "resume-analyzer" (JObj [("filename", JStr (up_originalname f))])
                      (JObj [("analysis", a)]) l.
Proof.
  intros E H. unfold resume_handler in E.
  destruct file as [f|]; [|not_200 E H].
  apply try_ok in E. destruct E as [E|(e & w1 & _ & E)]; [|not_200 E H].
  apply bind_ok in E as (txt & w1 & E1 & E). apply lift_ok in E1 as [_ ->].
  destruct (String.length txt <? 100)%nat; [not_200 E H|].
  apply bind_ok in E as (v & w2 & E2 & E).
  destruct (log_only_run _ _ _ _ (log_only_run_fallback _ _) E2) as [l2 ->].
  destruct (String.eqb uid ""); [not_200 E H|].
  apply bind_ok in E as (g & w5 & E5 & E). apply create_ok in E5. subst w5.
  unfold ret in E. injection E as <- <-.
  exists f, (analysis_of v). eexists. split; [reflexivity|]. split; reflexivity.
Qed.

(** A route guarded by the quota middleware answers 200 only through its handler,
    run from a world that differs from the request's only in the log. *)
Lemma chain_quota_ok (f uid : string) (h : M response) (w w' : world) (r : response) :
  chain (enforceDailyLimit f uid) h w = (inr r, w') -> r_status r = 200 ->
  exists l, h (with_log w l) = (inr r, w').
Proof.
  intros E H. unfold chain, bind in E.
  destruct (enforceDailyLimit f uid w) as [[e|[|resp]] w1] eqn:Em; [discriminate E| |].
  - destruct (log_only_run _ _ _ _ (log_only_enforceDailyLimit f uid) Em) as [l ->].
    exists l. exact E.
  - inversion E; subst. exfalso. exact (enforceDailyLimit_not_ok f uid w w' r Em H).
Qed.

Lemma after_create_with_log (w : world) (l l' : list effect) (uid feature : string) (i o : jsval) :
  after_create (with_log w l) uid feature i o l' = after_create w uid feature i o l'.
Proof. reflexivity. Qed.

(** The three metered routes, as the server mounts them. *)
Inductive metered_call : Type :=
| ImageCall (b : image_body)
| BgCall (file : option upload)
| ResumeCall (file : option upload).

Definition metered_feature (m : metered_call) : string :=
  match m with
  | ImageCall _ => "image-generator"
  | BgCall _ => "background-remover"
  | ResumeCall _ => "resume-analyzer"
  end.

Definition metered_route (ex : ext) (uid : string) (m : metered_call) : M response :=
  match m with
  | ImageCall b => image_route ex uid b
  | BgCall file => bg_route ex uid file
  | ResumeCall file => resume_route ex uid file
  end.

Lemma metered_route_ok (ex : ext) (uid : string) (m : metered_call) (w w' : world) (r : response) :
  metered_route ex uid m w = (inr r, w') -> r_status r = 200 ->
  exists i o l, r = json o /\ w' = after_create w uid (metered_feature m) i o l.
Proof.
  intros E H. destruct m as [b|file|file]; simpl in E |- *.
  - destruct (chain_quota_ok _ _ _ _ _ _ E H) as [l0 E0].
    destruct (image_handler_ok _ _ _ _ _ _ E0 H) as (p & s & l & _ & -> & ->).
    eexists _, _, l. split; reflexivity.
  - destruct (chain_quota_ok _ _ _ _ _ _ E H) as [l0 E0].
    destruct (bg_handler_ok _ _ _ _ _ _ E0 H) as (f & s & l & _ & -> & ->).
    eexists _, _, l. split; reflexivity.
  - destruct (chain_quota_ok _ _ _ _ _ _ E H) as [l0 E0].
    destruct (resume_handler_ok _ _ _ _ _ _ E0 H) as (f & a & l & _ & -> & ->).
    eexists _, _, l. split; reflexivity.
Qed.

Lemma usage_count_snoc (recs : list genrec) (g : genrec) (uid f : string) (since : Z) :
  usage_count (recs ++ [g]) uid f since
  = (usage_count recs uid f since
     + if String.eqb (g_userId g) uid && String.eqb (g_feature g) f && (since <=? g_createdAt g)%Z
       then 1 else 0)%nat.
Proof.
  unfold usage_count. rewrite filter_app, length_app. simpl.
  destruct (_ && _ && _); reflexivity.
Qed.

Lemma start_of_utc_day_le (now : Z) : start_of_utc_day now <= now.
Proof.
  unfold start_of_utc_day, ms_per_day. rewrite Z.mul_comm. apply Z.mul_div_le. lia.
Qed.

(** A 200 from any metered route (image, background removal, resume)
    appends exactly one record, created now for this user and the route's
    feature, whose [output] is the response body: the route stores what it
    returns and nothing else. *)
Theorem metered_success_stores_response (ex : ext) (uid : string) (m : metered_call)
        (w w' : world) (r : response) :
  metered_route ex uid m w = (inr r, w') -> r_status r = 200 ->
  exists g, w_records w' = w_records w ++ [g] /\ g_output g = r_body r /\
            g_userId g = uid /\ g_feature g = metered_feature m /\ g_createdAt g = w_now w.
Proof.
  intros E H. destruct (metered_route_ok ex uid m w w' r E H) as (i & o & l & -> & ->).
  eexists. split; [reflexivity|]. repeat split.
Qed.

Definition image_ok_body : image_body := ImageBody (Some "a red fox") (Some "anime") None.

Lemma metered_success_stores_response_witness :
  exists g, w_records (snd (metered_route ext0 "u1" (ImageCall image_ok_body) image_ok_world))
            = w_records image_ok_world ++ [g] /\
            g_output g = JObj [("image", JStr "aW1hZ2U=")] /\
            g_userId g = "u1" /\ g_feature g = "image-generator" /\ g_createdAt g = w_now image_ok_world.
Proof.
  exact (metered_success_stores_response ext0 "u1" (ImageCall image_ok_body) image_ok_world
           (snd (metered_route ext0 "u1" (ImageCall image_ok_body) image_ok_world))
           (json (JObj [("image", JStr "aW1hZ2U=")])) eq_refl eq_refl).
Defined.

(** A 200 from any metered route uses up exactly one unit of the user's
    daily quota for that route's feature and leaves the user's counts for
    every other feature unchanged. *)
Theorem metered_success_consumes_one (ex : ext) (uid : string) (m : metered_call)
        (w w' : world) (r : response) :
  metered_route ex uid m w = (inr r, w') -> r_status r = 200 ->
  todays_usage w' uid (metered_feature m) = S (todays_usage w uid (metered_feature m)) /\
  (forall f, f <> metered_feature m -> todays_usage w' uid f = todays_usage w uid f).
Proof.
  intros E H. destruct (metered_route_ok ex uid m w w' r E H) as (i & o & l & -> & ->).
  unfold todays_usage, after_create. simpl. split.
  - rewrite usage_count_snoc. simpl. rewrite !String.eqb_refl.
    rewrite (proj2 (Z.leb_le _ _) (start_of_utc_day_le (w_now w))). simpl. lia.
  - intros f Hf. rewrite usage_count_snoc. simpl.
    rewrite String.eqb_refl. destruct (String.eqb_spec (metered_feature m) f) as [<-|_];
      [contradiction|]. simpl. lia.
Qed.

Lemma metered_success_consumes_one_witness :
  todays_usage (snd (metered_route ext0 "u1" (ImageCall image_ok_body) image_ok_world)) "u1" "image-generator"
  = S (todays_usage image_ok_world "u1" "image-generator").
Proof.
  exact (proj1 (metered_success_consumes_one ext0 "u1" (ImageCall image_ok_body) image_ok_world
           (snd (metered_route ext0 "u1" (ImageCall image_ok_body) image_ok_world))
           (json (JObj [("image", JStr "aW1hZ2U=")])) eq_refl eq_refl)).
Defined.

(* ------------------------------------------------------------------ *)
(** ** Data URIs and the base64 scan of the background-removal route *)

Local Open Scope string_scope.
Local Open Scope Z_scope.

Lemma prefix_app (a b : string) : String.prefix a (a ++ b) = true.
Proof.
  induction a as [|c a IH]; simpl; [destruct b; reflexivity|].
  destruct (ascii_dec c c) as [_|n]; [exact IH | contradiction n; reflexivity].
Qed.

Lemma drop_0 (s : string) : drop 0 s = s.
Proof.
  unfold drop. rewrite Nat.sub_0_r. induction s as [|c s IH]; simpl; [reflexivity|].
  f_equal. exact IH.
Qed.

Lemma drop_S (n : nat) (c : ascii) (s : string) : drop (S n) (String c s) = drop n s.
Proof. reflexivity. Qed.

Lemma drop_app (a b : string) : drop (String.length a) (a ++ b) = b.
Proof. induction a as [|c a IH]; simpl; [apply drop_0|]. rewrite drop_S. exact IH. Qed.

Lemma span_not_semicolon_app (t rest : string) :
  Forall (fun c => c <> ";"%char) (list_ascii_of_string t) ->
  span_not_semicolon (t ++ String ";" rest) = (t, String ";" rest).
Proof.
  induction t as [|c t IH]; intros Ht; simpl; [reflexivity|].
  inversion Ht as [|? ? Hc Ht']; subst.
  destruct (Ascii.eqb_spec c ";"%char) as [E|_]; [contradiction|].
  rewrite (IH Ht'). reflexivity.
Qed.

(** [s.replace(/^data:image\/[^;]+;base64,/, '')] recovers the payload of a
    data URI: for a non-empty media subtype [t] without [;], stripping
    ["data:image/" ++ t ++ ";base64," ++ p] gives back exactly [p]. *)
Theorem strip_data_uri_payload (t p : string) :
  t <> "" -> Forall (fun c => c <> ";"%char) (list_ascii_of_string t) ->
  strip_data_uri ("data:image/" ++ t ++ ";base64," ++ p) = p.
Proof.
  intros Hne Ht. unfold strip_data_uri. rewrite prefix_app.
  change 11%nat with (String.length "data:image/"). rewrite drop_app.
  change (";base64," ++ p) with (String ";" ("base64," ++ p)).
  rewrite (span_not_semicolon_app t ("base64," ++ p) Ht).
  rewrite (proj2 (String.eqb_neq _ _) Hne). simpl negb.
  change (String ";" ("base64," ++ p)) with (";base64," ++ p).
  rewrite prefix_app. simpl andb.
  change 8%nat with (String.length ";base64,"). apply drop_app.
Qed.

Lemma strip_data_uri_payload_witness :
  strip_data_uri "data:image/png;base64,iVBORw0KGgo=" = "iVBORw0KGgo=".
Proof.
  exact (strip_data_uri_payload "png" "iVBORw0KGgo=" ltac:(discriminate)
           ltac:(repeat constructor; discriminate)).
Defined.

Lemma b64_run_split (r : string) : r = b64_run r ++ drop (String.length (b64_run r)) r.
Proof.
  induction r as [|c r IH]; simpl; [reflexivity|].
  destruct (is_b64_char c); simpl.
  - rewrite drop_S. f_equal. exact IH.
  - rewrite drop_0. reflexivity.
Qed.

Lemma b64_run_chars (r : string) (n : nat) (c : ascii) :
  String.get n (b64_run r) = Some c -> is_b64_char c = true.
Proof.
  revert n. induction r as [|d r IH]; intros n; simpl; [discriminate|].
  destruct (is_b64_char d) eqn:Hd; [|discriminate].
  destruct n as [|n]; simpl; [intros E; inversion E; subst; exact Hd | apply IH].
Qed.

Lemma prefix_one (d : ascii) (x : string) :
  String.prefix (String d EmptyString) x = true -> exists post, x = String d post.
Proof.
  destruct x as [|c post]; simpl; [discriminate|].
  destruct (ascii_dec d c) as [<-|]; [intros _; exists post; reflexivity | discriminate].
Qed.

(** The fallback scan of the segmentation result is sound: when it finds
    a mask [m], then [m] has at least 100 characters, every character of
    [m] is one of [A-Za-z0-9+/=], and [m] occurs in the serialised result
    between two double quotes. *)
Theorem find_b64_quoted_sound (s m : string) :
  find_b64_quoted s = Some m ->
  (100 <= String.length m)%nat /\
  (forall n c, String.get n m = Some c -> is_b64_char c = true) /\
  exists pre post, s = pre ++ String dquote (m ++ String dquote post).
Proof.
  revert m. induction s as [|c r IH]; intros m; cbn beta iota zeta delta [find_b64_quoted];
    [discriminate|].
  destruct (Ascii.eqb c dquote && (100 <=? String.length (b64_run r))%nat
            && String.prefix (String dquote EmptyString) (drop (String.length (b64_run r)) r))%bool eqn:Hc.
  - intros E. injection E as <-.
    apply andb_prop in Hc as [Hc Hq]. apply andb_prop in Hc as [Hc Hl].
    apply Ascii.eqb_eq in Hc. subst c. apply Nat.leb_le in Hl.
    destruct (prefix_one _ _ Hq) as [post Hpost].
    split; [exact Hl|]. split; [apply b64_run_chars|].
    exists EmptyString, post. simpl. f_equal. rewrite <- Hpost. apply b64_run_split.
  - intros E. destruct (IH m E) as (Hl & Hch & pre & post & ->).
    split; [exact Hl|]. split; [exact Hch|]. exists (String c pre), post. reflexivity.
Qed.

Definition long_b64 : string :=
  "QUFBQUFBQUFBQUFBQUFBQUFBQUFBQUFBQUFBQUFBQUFBQUFBQUFBQUFBQUFBQUFBQUFBQUFBQUFBQUFBQUFBQUFBQUFBQUFBQUFBQUFB".

Lemma find_b64_quoted_sound_witness :
  (100 <= String.length long_b64)%nat /\
  (forall n c, String.get n long_b64 = Some c -> is_b64_char c = true) /\
  exists pre post, "{" ++ String dquote ("mask" ++ String dquote (":" ++ String dquote (long_b64 ++ String dquote "}")))
                   = pre ++ String dquote (long_b64 ++ String dquote post).
Proof.
  apply find_b64_quoted_sound. vm_compute. reflexivity.
Defined.

(* ------------------------------------------------------------------ *)
(** ** Usage report (GET /usage of src/routes/history.ts, in src/unnamed/part_001) *)

(** history.ts keeps its own copy of the limit table. *)
Definition history_FREE_LIMITS : list (string * Z) :=
  [("article-generator", 10); ("image-generator", 10);
   ("background-remover", 10); ("resume-analyzer", 10)].

(** A [limit] or [remaining] field: a number, or the string ['Unlimited']. *)
Inductive usage_num : Type := UNum (n : Z) | Unlimited.

Record usage_entry : Type := UsageEntry {
  ue_feature : string; ue_used : nat; ue_limit : usage_num; ue_remaining : usage_num;
  ue_isPremium : bool }.

(** The JSON body; [resetTime] is the instant (in ms) that
    [new Date(startOfDay.getTime() + 24 * 60 * 60 * 1000).toISOString()] prints. *)
Inductive usage_response : Type :=
| UsageOk (usage : list usage_entry) (isPremium : bool) (resetTime : Z)
| UsageErr (code : Z) (msg : string).

Fixpoint mapM {A B} (f : A -> M B) (l : list A) : M (list B) :=
  match l with
  | [] => ret []
  | x :: l' => y <- f x;; ys <- mapM f l';; ret (y :: ys)
  end.

(** The callback of [Object.keys(FREE_LIMITS).map(async (feature) => ...)]. *)
Definition usage_of (uid : string) (u : user) (startOfDay : Z) (fl : string * Z) : M usage_entry :=
  let '(feature, lim) := fl in
  count <- countGenerations uid feature startOfDay;;
  let remaining := Z.max 0 (lim - Z.of_nat count) in
  ret (UsageEntry feature count
         (if u_isPremium u then Unlimited else UNum lim)
         (if u_isPremium u then Unlimited else UNum remaining)
         (u_isPremium u)).

Definition usage_handler (userId : string) : M usage_response :=
  try_catch
    (ou <- findUser userId;;
     match ou with
     | None => ret (UsageErr 401 "User not found.")
     | Some u =>
         now <- read w_now;;
         let startOfDay := start_of_utc_day now in
         usage <- mapM (usage_of userId u startOfDay) history_FREE_LIMITS;;
         ret (UsageOk usage (u_isPremium u) (startOfDay + ms_per_day))
     end)
    (fun _ => ret (UsageErr 500 "Failed to fetch usage")).

(** What the report says about one entry: the next request is allowed. *)
Definition usage_admits (e : usage_entry) : bool :=
  match ue_remaining e with Unlimited => true | UNum n => (0 <? n)%Z end.

Lemma mapM_usage_of (uid : string) (u : user) (sod : Z) (l : list (string * Z)) (w : world) :
  exists lg, mapM (usage_of uid u sod) l w
  = (inr (map (fun '(f, lim) =>
                 UsageEntry f (usage_count (w_records w) uid f sod)
                   (if u_isPremium u then Unlimited else UNum lim)
                   (if u_isPremium u then Unlimited
                    else UNum (Z.max 0 (lim - Z.of_nat (usage_count (w_records w) uid f sod))))
                   (u_isPremium u)) l),
     with_log w lg).
Proof.
  revert w. induction l as [|[f lim] l IH]; intros w; simpl.
  - exists (w_log w). unfold ret. rewrite with_log_self. reflexivity.
  - unfold bind at 1. unfold countGenerations, bind, emit, read, ret. simpl.
    destruct (IH (log_effect (ECount uid f sod) w)) as [lg Hlg]. rewrite Hlg.
    exists lg. reflexivity.
Qed.

Lemma bind_inr {A B} (m : M A) (k : A -> M B) (w w1 : world) (a : A) :
  m w = (inr a, w1) -> bind m k w = k a w1.
Proof. unfold bind. intros ->. reflexivity. Qed.

Lemma findUser_eq (uid : string) (w : world) :
  findUser uid w = (inr (find_user uid w), log_effect (EFindUser uid) w).
Proof. reflexivity. Qed.

Lemma usage_handler_found (uid : string) (u : user) (w : world) :
  find_user uid w = Some u ->
  fst (usage_handler uid w)
  = inr (UsageOk (map (fun '(f, lim) =>
                 UsageEntry f (todays_usage w uid f)
                   (if u_isPremium u then Unlimited else UNum lim)
                   (if u_isPremium u then Unlimited
                    else UNum (Z.max 0 (lim - Z.of_nat (todays_usage w uid f))))
                   (u_isPremium u)) history_FREE_LIMITS)
                 (u_isPremium u) (start_of_utc_day (w_now w) + ms_per_day)).
Proof.
  intros Hu. unfold usage_handler, try_catch.
  rewrite (bind_inr _ _ _ _ _ (findUser_eq uid w)), Hu.
  rewrite (bind_inr _ _ _ _ (w_now w) (eq_refl : read w_now (log_effect (EFindUser uid) w)
                                          = (inr (w_now w), log_effect (EFindUser uid) w))).
  destruct (mapM_usage_of uid u (start_of_utc_day (w_now w)) history_FREE_LIMITS
              (log_effect (EFindUser uid) w)) as [lg Hlg].
  rewrite (bind_inr _ _ _ _ _ Hlg). reflexivity.
Qed.

Lemma usage_handler_missing (uid : string) (w : world) :
  find_user uid w = None -> fst (usage_handler uid w) = inr (UsageErr 401 "User not found.").
Proof.
  intros Hu. unfold usage_handler, try_catch.
  rewrite (bind_inr _ _ _ _ _ (findUser_eq uid w)), Hu. reflexivity.
Qed.

Lemma now_lt_next_utc_day (now : Z) : now < start_of_utc_day now + ms_per_day.
Proof.
  unfold start_of_utc_day. pose proof (Z.mod_pos_bound now ms_per_day ltac:(unfold ms_per_day; lia)).
  pose proof (Z.div_mod now ms_per_day ltac:(unfold ms_per_day; lia)). lia.
Qed.

Lemma admits_iff_below (f : string) (c : nat) (r : response) :
  usage_admits (UsageEntry f c (UNum 10) (UNum (Z.max 0 (10 - Z.of_nat c))) false) = true
  <-> inr (if limit_reached c (LNum 10) then Respond r else Next) = inr (A := exn) Next.
Proof.
  unfold usage_admits, limit_reached. cbn [ue_remaining].
  destruct (10 <=? Z.of_nat c)%Z eqn:E; [apply Z.leb_le in E | apply Z.leb_gt in E];
    rewrite Z.ltb_lt; split; intros H; try discriminate H; try reflexivity; lia.
Qed.

(** GET /usage and the quota middleware agree: for a known user, the
    report lists the four metered features of the limit table, each with
    today's count of the user's records, and an entry shows remaining
    uses (a positive [remaining], or 'Unlimited') exactly when
    [enforceDailyLimit] for that feature would let the next request through. *)
Theorem usage_report_matches_quota (uid : string) (u : user) (w : world) :
  find_user uid w = Some u ->
  exists es t,
    fst (usage_handler uid w) = inr (UsageOk es (u_isPremium u) t) /\
    map ue_feature es = map fst FREE_LIMITS /\
    forall e, In e es ->
      ue_used e = todays_usage w uid (ue_feature e) /\
      (usage_admits e = true <-> fst (enforceDailyLimit (ue_feature e) uid w) = inr Next).
Proof.
  intros Hu. rewrite (usage_handler_found uid u w Hu).
  eexists _, _. split; [reflexivity|]. split; [reflexivity|].
  intros e Hin. simpl in Hin.
  destruct Hin as [<-|[<-|[<-|[<-|[]]]]];
    (split; [reflexivity|]); rewrite (enforceDailyLimit_found _ _ u w Hu);
    destruct (u_isPremium u); (try (split; reflexivity));
    exact (admits_iff_below _ _ _).
Qed.

Definition usage_world : world :=
  world0 [User "u1" false]
    (map (fun i => GenRec ("r" ++ string_of_nat i) "u1" "image-generator" JNull JNull
                          (3 * ms_per_day + Z.of_nat i)) (seq 0 10)) true [].

Lemma usage_report_matches_quota_witness :
  exists es t,
    fst (usage_handler "u1" usage_world) = inr (UsageOk es false t) /\
    map ue_feature es = map fst FREE_LIMITS /\
    forall e, In e es ->
      ue_used e = todays_usage usage_world "u1" (ue_feature e) /\
      (usage_admits e = true <-> fst (enforceDailyLimit (ue_feature e) "u1" usage_world) = inr Next).
Proof. exact (usage_report_matches_quota "u1" (User "u1" false) usage_world eq_refl). Defined.

(** The [resetTime] of a usage report is the next UTC midnight: strictly
    after the current time and at most 24 hours later. *)
Theorem usage_reset_time_next_midnight (uid : string) (w : world) (es : list usage_entry)
        (b : bool) (t : Z) :
  fst (usage_handler uid w) = inr (UsageOk es b t) ->
  w_now w < t <= w_now w + ms_per_day /\ t mod ms_per_day = 0.
Proof.
  destruct (find_user uid w) as [u|] eqn:Hu.
  - rewrite (usage_handler_found uid u w Hu). intros E. injection E as _ _ <-.
    pose proof (now_lt_next_utc_day (w_now w)). pose proof (start_of_utc_day_le (w_now w)).
    split; [lia|]. unfold start_of_utc_day.
    replace (w_now w / ms_per_day * ms_per_day + ms_per_day)
      with ((w_now w / ms_per_day + 1) * ms_per_day) by ring.
    apply Z_mod_mult.
  - rewrite (usage_handler_missing uid w Hu). discriminate.
Qed.

Lemma usage_reset_time_next_midnight_witness :
  w_now usage_world < 4 * ms_per_day <= w_now usage_world + ms_per_day /\
  (4 * ms_per_day) mod ms_per_day = 0.
Proof.
  exact (usage_reset_time_next_midnight "u1" usage_world _ false (4 * ms_per_day) eq_refl).
Defined.

(** The daily quota counts the current UTC calendar day: when no record
    lies in the future, today's count for a user and feature is the number
    of the user's records for that feature created on the same UTC day
    (the same [t / 86400000]) as now. *)
Theorem quota_counts_current_utc_day (w : world) (uid f : string) :
  Forall (fun r => g_createdAt r <= w_now w) (w_records w) ->
  todays_usage w uid f
  = length (filter (fun r => String.eqb (g_userId r) uid && String.eqb (g_feature r) f
                              && (g_createdAt r / ms_per_day =? w_now w / ms_per_day)%Z)
                   (w_records w)).
Proof.
  intros Hall. unfold todays_usage, usage_count. f_equal.
  apply filter_ext_in. intros r Hr. rewrite Forall_forall in Hall. specialize (Hall r Hr).
  f_equal. unfold start_of_utc_day.
  assert (Hd : 0 < ms_per_day) by (unfold ms_per_day; lia).
  destruct (w_now w / ms_per_day * ms_per_day <=? g_createdAt r) eqn:E.
  - apply Z.leb_le in E. symmetry. apply Z.eqb_eq. apply Z.le_antisymm.
    + apply Z.div_le_mono; lia.
    + apply Z.div_le_lower_bound; lia.
  - apply Z.leb_gt in E. symmetry. apply Z.eqb_neq. intros Heq.
    pose proof (Z.mul_div_le (g_createdAt r) ms_per_day Hd). rewrite Heq in H. lia.
Qed.

Lemma quota_counts_current_utc_day_witness :
  todays_usage free_user_world "u1" "image-generator"
  = length (filter (fun r => String.eqb (g_userId r) "u1" && String.eqb (g_feature r) "image-generator"
                              && (g_createdAt r / ms_per_day =? w_now free_user_world / ms_per_day)%Z)
                   (w_records free_user_world)).
Proof.
  apply quota_counts_current_utc_day. apply Forall_forall. intros r Hr.
  unfold free_user_world, world0 in Hr. simpl in Hr.
  repeat (destruct Hr as [<-|Hr]; [simpl; unfold ms_per_day; lia|]). destruct Hr.
Defined.

(* ------------------------------------------------------------------ *)
(** ** Page sizes of the history listing *)

(** [Number(req.query.limit)] is not negative ([NaN] counts as absent). *)
Definition not_negative (n : jsnum) : bool :=
  match n with NaN | PosInf => true | Fin x => Qle_bool 0 x | NegInf => false end.

Lemma history_handler_eq (uid : string) (q : history_query) (w : world) (t : Z) :
  take_of (page_limit (hq_limit q)) = inr t ->
  fst (history_handler uid q w)
  = inr (HistoryOk (HistoryPage
      (prisma_findMany (w_records w) uid t (fst (cursor_args (hq_cursor q))) (snd (cursor_args (hq_cursor q))))
      (length (filter (fun r => String.eqb (g_userId r) uid) (w_records w)))
      (match page_limit (hq_limit q) with
       | Fin l => Qeq_bool (inject_Z (Z.of_nat (length (prisma_findMany (w_records w) uid t
                    (fst (cursor_args (hq_cursor q))) (snd (cursor_args (hq_cursor q))))))) l
       | _ => false end)
      (last_id (prisma_findMany (w_records w) uid t (fst (cursor_args (hq_cursor q))) (snd (cursor_args (hq_cursor q)))))
      (page_limit (hq_limit q)))).
Proof.
  intros Ht. unfold history_handler, try_catch, findManyHistory, countAll, bind, emit, read, lift, ret.
  simpl. rewrite Ht. destruct (cursor_args (hq_cursor q)). reflexivity.
Qed.

Lemma take_of_fin_bounds (x : Q) (t : Z) :
  Qle_bool 0 x = true -> Qle_bool x 50 = true -> take_of (Fin x) = inr t -> 0 <= t <= 50.
Proof.
  destruct x as [n d]. unfold take_of, Qle_bool. simpl.
  intros H0 H50 E. apply Z.leb_le in H0. apply Z.leb_le in H50.
  destruct (n mod Z.pos d =? 0) eqn:Hm; [|discriminate E]. injection E as <-.
  apply Z.eqb_eq in Hm. pose proof (Z.div_exact n (Z.pos d) ltac:(lia)) as Hx.
  apply Hx in Hm. split.
  - apply Z.div_pos; lia.
  - apply Z.div_le_upper_bound; lia.
Qed.

Lemma page_limit_take_bounds (n : jsnum) (t : Z) :
  not_negative n = true -> take_of (page_limit n) = inr t -> 0 <= t <= 50.
Proof.
  destruct n as [|x| |]; simpl; intros Hn E; try discriminate Hn.
  - vm_compute in E. injection E as <-. lia.
  - unfold page_limit, jsnum_truthy in E.
    destruct (Qeq_bool x 0); simpl in E.
    + vm_compute in E. injection E as <-. lia.
    + unfold math_min in E. destruct (Qle_bool x 50) eqn:H50.
      * exact (take_of_fin_bounds x t Hn H50 E).
      * vm_compute in E. injection E as <-. lia.
  - vm_compute in E. injection E as <-. lia.
Qed.

Lemma page_forward_length (l : list genrec) (c : option string) (skip take : nat) :
  (length (page_forward l c skip take) <= take)%nat.
Proof.
  unfold page_forward. destruct c as [c|]; [destruct (index_of_id c l)|];
    simpl; try apply firstn_le_length; lia.
Qed.

(** The history page holds at most 50 records whenever the requested
    [limit] is not negative (absent, non-numeric, zero or positive). *)
Theorem history_page_at_most_50 (uid : string) (q : history_query) (w w' : world) (pg : history_page) :
  history_handler uid q w = (inr (HistoryOk pg), w') -> not_negative (hq_limit q) = true ->
  (length (hp_history pg) <= 50)%nat.
Proof.
  intros H Hn. destruct (history_handler_ok uid q w w' pg H) as (t & Ht & _ & ->).
  destruct (page_limit_take_bounds _ _ Hn Ht) as [H0 H50].
  unfold prisma_findMany. rewrite (proj2 (Z.leb_le 0 t) H0).
  eapply Nat.le_trans; [apply page_forward_length|]. lia.
Qed.

Definition many_records_world : world :=
  world0 [User "u1" false]
    (map (fun i => GenRec ("r" ++ string_of_nat i) "u1" "image-generator" JNull JNull (Z.of_nat i))
         (seq 0 60)) true [].

Definition history_query_100 : history_query := HistoryQuery (Fin (inject_Z 100)) None.

Lemma history_page_at_most_50_witness :
  (length (hp_history (match fst (history_handler "u1" history_query_100 many_records_world) with
                       | inr (HistoryOk pg) => pg | _ => HistoryPage [] 0 false None NaN end)) <= 50)%nat.
Proof.
  exact (history_page_at_most_50 "u1" history_query_100 many_records_world
           (snd (history_handler "u1" history_query_100 many_records_world)) _ eq_refl eq_refl).
Defined.

Lemma page_limit_negative (k : Z) : k < 0 -> page_limit (Fin (inject_Z k)) = Fin (inject_Z k).
Proof.
  intros Hk. unfold page_limit, jsnum_truthy.
  assert (E0 : Qeq_bool (inject_Z k) 0 = false).
  { apply Bool.not_true_iff_false. intros E. apply Qeq_bool_eq in E.
    unfold Qeq in E. simpl in E. lia. }
  rewrite E0. simpl. unfold math_min.
  assert (E50 : Qle_bool (inject_Z k) 50 = true).
  { unfold Qle_bool. simpl. apply Z.leb_le. lia. }
  rewrite E50. reflexivity.
Qed.

Lemma take_of_inject_Z (k : Z) : take_of (Fin (inject_Z k)) = inr k.
Proof. unfold take_of. simpl. rewrite Z.mod_1_r, Z.div_1_r. reflexivity. Qed.

(** A negative [limit] escapes the cap of 50: with [limit = k < 0] and no
    cursor, the page is the [-k] oldest records of the user (all of them if
    there are fewer), still newest first, however large [-k] is. *)
Theorem history_negative_limit_uncapped (uid : string) (q : history_query) (w : world) (k : Z) :
  hq_limit q = Fin (inject_Z k) -> k < 0 -> hq_cursor q = None ->
  exists pg,
    fst (history_handler uid q w) = inr (HistoryOk pg) /\
    hp_history pg = skipn (length (user_ordered w uid) - Z.to_nat (- k)) (user_ordered w uid) /\
    length (hp_history pg) = Nat.min (Z.to_nat (- k)) (length (user_ordered w uid)).
Proof.
  intros Hq Hk Hc.
  assert (Ht : take_of (page_limit (hq_limit q)) = inr k)
    by (rewrite Hq, (page_limit_negative k Hk); apply take_of_inject_Z).
  rewrite (history_handler_eq uid q w k Ht). eexists. split; [reflexivity|].
  rewrite Hc. simpl. unfold prisma_findMany. fold (user_ordered w uid).
  destruct (0 <=? k) eqn:E; [apply Z.leb_le in E; lia|].
  unfold page_forward. rewrite skipn_O, firstn_rev, rev_involutive.
  split; [reflexivity|]. rewrite length_skipn. lia.
Qed.

Definition history_query_neg : history_query := HistoryQuery (Fin (inject_Z (-55))) None.

Lemma history_negative_limit_uncapped_witness :
  exists pg,
    fst (history_handler "u1" history_query_neg many_records_world) = inr (HistoryOk pg) /\
    hp_history pg = skipn (length (user_ordered many_records_world "u1") - 55) (user_ordered many_records_world "u1") /\
    length (hp_history pg) = Nat.min 55 (length (user_ordered many_records_world "u1")).
Proof.
  exact (history_negative_limit_uncapped "u1" history_query_neg many_records_world (-55)
           eq_refl ltac:(lia) eq_refl).
Defined.

(** ** C9: a negative [limit] slips past the cap of 50 *)

Lemma index_of_id_split (c : string) (l : list genrec) (p : nat) :
  index_of_id c l = Some p ->
  exists l1 r l2, l = (l1 ++ r :: l2)%list /\ length l1 = p /\ g_id r = c /\
                  Forall (fun x => g_id x <> c) l1.
Proof.
  revert p. induction l as [|x l IH]; intros p H; simpl in H; [discriminate H|].
  destruct (String.eqb_spec (g_id x) c) as [E|E].
  - injection H as <-. exists [], x, l. repeat split; auto.
  - destruct (index_of_id c l) as [p'|]; simpl in H; [|discriminate H]. injection H as <-.
    destruct (IH p' eq_refl) as (l1 & r & l2 & -> & <- & Hr & Hf).
    exists (x :: l1), r, l2. repeat split; auto.
Qed.

Lemma index_of_id_app (c : string) (a : list genrec) (r : genrec) (b : list genrec) :
  Forall (fun x => g_id x <> c) a -> g_id r = c -> index_of_id c (a ++ r :: b)%list = Some (length a).
Proof.
  intros Hf Hr. induction a as [|x a IH]; simpl.
  - rewrite Hr, String.eqb_refl. reflexivity.
  - inversion Hf as [|? ? Hx Ha]; subst.
    destruct (String.eqb_spec (g_id x) (g_id r)) as [E|_]; [contradiction|].
    rewrite (IH Ha). reflexivity.
Qed.

Lemma skipn_past_elem {A} (a : list A) (r : A) (b : list A) :
  skipn (length a + 1) (a ++ r :: b)%list = b.
Proof. induction a as [|x a IH]; simpl; [reflexivity|exact IH]. Qed.

(** C9 (code_bug): the page size [Math.min(Number(limit) || 20, 50)] is
    meant to be capped at 50, but a negative [limit = k] passes through
    and Prisma reads a negative [take] backwards. With a cursor naming
    the user's record at position [p] of the newest-first order, the
    page is the [min(-k, p)] records just BEFORE the cursor (newer ones),
    not the records after it, and its size is not capped at 50. *)
Theorem history_negative_limit_before_cursor (uid : string) (q : history_query) (w : world)
        (k : Z) (c : string) (p : nat) :
  hq_limit q = Fin (inject_Z k) -> k < 0 -> hq_cursor q = Some c -> String.eqb c "" = false ->
  NoDup (map g_id (user_ordered w uid)) ->
  index_of_id c (user_ordered w uid) = Some p ->
  exists pg,
    fst (history_handler uid q w) = inr (HistoryOk pg) /\
    hp_history pg = skipn (p - Z.to_nat (- k)) (firstn p (user_ordered w uid)) /\
    length (hp_history pg) = Nat.min (Z.to_nat (- k)) p.
Proof.
  intros Hq Hk Hc Hne Hnd Hp.
  assert (Ht : take_of (page_limit (hq_limit q)) = inr k)
    by (rewrite Hq, (page_limit_negative k Hk); apply take_of_inject_Z).
  rewrite (history_handler_eq uid q w k Ht). eexists. split; [reflexivity|].
  rewrite Hc. unfold cursor_args. rewrite Hne. simpl. unfold prisma_findMany.
  fold (user_ordered w uid).
  destruct (0 <=? k) eqn:E; [apply Z.leb_le in E; lia|].
  destruct (index_of_id_split c _ p Hp) as (l1 & r & l2 & Hl & Hlen & Hr & Hf).
  rewrite Hl in Hnd |- *.
  assert (Hf2 : Forall (fun x => g_id x <> c) (rev l2)).
  { apply Forall_forall. intros x Hx Hxc. apply in_rev in Hx.
    rewrite map_app in Hnd. simpl in Hnd. apply NoDup_remove_2 in Hnd. apply Hnd.
    apply in_or_app. right. rewrite Hr, <- Hxc. apply in_map. exact Hx. }
  rewrite rev_app_distr. simpl rev. rewrite <- app_assoc. simpl app.
  unfold page_forward. rewrite (index_of_id_app c (rev l2) r (rev l1) Hf2 Hr).
  rewrite skipn_past_elem, firstn_rev, rev_involutive.
  assert (Hp1 : firstn p (l1 ++ r :: l2)%list = l1).
  { rewrite <- Hlen, firstn_app, firstn_all, Nat.sub_diag. simpl. apply app_nil_r. }
  rewrite Hp1, Hlen. split; [reflexivity|]. rewrite length_skipn. lia.
Qed.

Definition history_query_neg_cursor : history_query := HistoryQuery (Fin (inject_Z (-1))) (Some "rb").

Lemma history_negative_limit_before_cursor_witness :
  exists pg,
    fst (history_handler "u1" history_query_neg_cursor history_world) = inr (HistoryOk pg) /\
    hp_history pg = skipn 0 (firstn 1 (user_ordered history_world "u1")) /\
    length (hp_history pg) = Nat.min 1 1.
Proof.
  refine (history_negative_limit_before_cursor "u1" history_query_neg_cursor history_world (-1) "rb" 1
            eq_refl ltac:(lia) eq_refl eq_refl _ eq_refl).
  vm_compute. repeat (apply NoDup_cons; [simpl; intuition discriminate|]).
  apply NoDup_nil.
Defined.


(* ------------------------------------------------------------------ *)
(** ** Authentication middleware (src/src/middleware/clerkAuth.ts and
       its later version in src/unnamed/part_001) *)

(** [s.split(" ")]. *)
Fixpoint js_split_sp (s : string) : list string :=
  match s with
  | EmptyString => [""]
  | String c r =>
      let parts := js_split_sp r in
      if Ascii.eqb c " "%char then "" :: parts
      else match parts with
           | p :: ps => String c p :: ps
           | [] => [String c ""]
           end
  end.

(** [authHeader.split(" ")[1]] ([undefined] past the end). *)
Definition bearer_token (authHeader : string) : jsval :=
  opt_str (nth_error (js_split_sp authHeader) 1).

(** [prisma.user.upsert({ where: { id }, create: { id, email, isPremium: false },
    update: { email } })] on the [id] and [isPremium] columns this
    development keeps: an existing row keeps its [isPremium], a new row
    is appended with [isPremium = false]. *)
Definition upsert_user (uid : string) : M unit :=
  fun w =>
    if w_db_up w then
      (inr tt, World (if existsb (fun u => String.eqb (u_id u) uid) (w_users w) then w_users w
                      else w_users w ++ [User uid false])
                     (w_records w) (w_now w) (w_next_id w) (w_db_up w) (w_provider w) (w_log w))
    else (inl storage_error, w).

(** [upsert({ where: { id: undefined } })] is rejected by Prisma. *)
Definition upsert_where_error : exn :=
  new_Error "Invalid prisma.user.upsert() invocation: Argument where needs at least one argument.".

(** What the middleware does: call [next()] with [req.auth.userId] set, or answer. *)
Inductive auth_result : Type := AuthNext (userId : string) | AuthRespond (r : response).

(** clerkAuth.ts; [verify] is Clerk's [verifyToken(token, { secretKey })]. *)
Definition requireAuth (verify : jsval -> exn + jsval) (authHeader : option string) : M auth_result :=
  try_catch
    (match authHeader with
     | Some h =>
         if String.prefix "Bearer " h then
           payload <- lift (verify (bearer_token h));;
           match get payload "sub" with
           | JStr userId => upsert_user userId;;; ret (AuthNext userId)
           | _ => throw upsert_where_error
           end
         else ret (AuthRespond (error_resp 401 "Missing or invalid Authorization header"))
     | None => ret (AuthRespond (error_resp 401 "Missing or invalid Authorization header"))
     end)
    (fun err => ret (AuthRespond (Resp 401 (JObj [("error", JStr "Unauthorized");
                                                    ("detail", JStr (message err))])))).

Definition auth_error (msg code : string) : response :=
  Resp 401 (JObj [("error", JStr msg); ("code", JStr code)]).

(** The later version (src/unnamed/part_001, lines 8-95). *)
Definition requireAuth_v2 (verify : jsval -> exn + jsval) (authHeader : option string) : M auth_result :=
  try_catch
    (match authHeader with
     | None => ret (AuthRespond (auth_error "Missing Authorization header" "MISSING_AUTH_HEADER"))
     | Some h =>
       if String.eqb h "" then
         ret (AuthRespond (auth_error "Missing Authorization header" "MISSING_AUTH_HEADER"))
       else if negb (String.prefix "Bearer " h) then
         ret (AuthRespond (auth_error "Invalid Authorization header format. Expected 'Bearer <token>'"
                             "INVALID_AUTH_FORMAT"))
       else
         let token := bearer_token h in
         if negb (truthy token) then
           ret (AuthRespond (auth_error "Empty token provided" "EMPTY_TOKEN"))
         else
           payload <- lift (verify token);;
           if negb (truthy (get payload "sub")) then
             ret (AuthRespond (auth_error "Invalid token payload" "INVALID_TOKEN_PAYLOAD"))
           else
             match get payload "sub" with
             | JStr userId => upsert_user userId;;; ret (AuthNext userId)
             | _ => throw upsert_where_error
             end
     end)
    (fun err => ret (AuthRespond
       (Resp 401 (JObj [("error", JStr "Token verification failed"); ("detail", JStr (message err));
                        ("code", JStr "TOKEN_VERIFICATION_FAILED")])))).

Lemma string_app_empty_r (a : string) : a ++ "" = a.
Proof. induction a as [|c a IH]; simpl; [reflexivity|]. rewrite IH. reflexivity. Qed.

Lemma js_split_sp_word (a : string) :
  Forall (fun c => c <> " "%char) (list_ascii_of_string a) -> js_split_sp a = [a].
Proof.
  induction a as [|c a IH]; intros H; simpl; [reflexivity|].
  inversion H as [|? ? Hc Ha]; subst. rewrite (IH Ha).
  destruct (Ascii.eqb_spec c " "%char); [contradiction|reflexivity].
Qed.

Lemma js_split_sp_word_space (a b : string) :
  Forall (fun c => c <> " "%char) (list_ascii_of_string a) ->
  js_split_sp (a ++ String " " b) = a :: js_split_sp b.
Proof.
  induction a as [|c a IH]; intros H; simpl; [reflexivity|].
  inversion H as [|? ? Hc Ha]; subst. rewrite (IH Ha).
  destruct (Ascii.eqb_spec c " "%char); [contradiction|reflexivity].
Qed.

(** The token both versions of [requireAuth] take from
    [authHeader.split(" ")[1]] is the text after ["Bearer "] up to the next
    space (or the end): ["Bearer abc"] gives ["abc"], ["Bearer abc def"]
    gives ["abc"], and ["Bearer  abc"] (two spaces) gives the empty string. *)
Theorem bearer_token_first_word (a rest : string) :
  Forall (fun c => c <> " "%char) (list_ascii_of_string a) ->
  (rest = "" \/ exists b, rest = String " " b) ->
  bearer_token ("Bearer " ++ a ++ rest) = JStr a.
Proof.
  intros Ha Hr. unfold bearer_token.
  change ("Bearer " ++ a ++ rest) with ("Bearer" ++ String " " (a ++ rest)).
  rewrite (js_split_sp_word_space "Bearer" (a ++ rest)) by (repeat constructor; discriminate).
  destruct Hr as [->|[b ->]].
  - rewrite string_app_empty_r, (js_split_sp_word a Ha). reflexivity.
  - rewrite (js_split_sp_word_space a b Ha). reflexivity.
Qed.

Lemma bearer_token_first_word_witness :
  bearer_token ("Bearer " ++ "" ++ " abc") = JStr "".
Proof. exact (bearer_token_first_word "" " abc" (Forall_nil _) (or_intror (ex_intro _ "abc" eq_refl))). Defined.

Lemma find_app {A} (f : A -> bool) (l1 l2 : list A) :
  find f (l1 ++ l2) = match find f l1 with Some x => Some x | None => find f l2 end.
Proof. induction l1 as [|x l1 IH]; simpl; [reflexivity|]. destruct (f x); [reflexivity|exact IH]. Qed.

Lemma existsb_find {A} (f : A -> bool) (l : list A) :
  existsb f l = match find f l with Some _ => true | None => false end.
Proof. induction l as [|x l IH]; simpl; [reflexivity|]. destruct (f x); [reflexivity|exact IH]. Qed.

Lemma upsert_user_ok (uid : string) (w w' : world) :
  upsert_user uid w = (inr tt, w') ->
  find_user uid w' = Some (match find_user uid w with Some u => u | None => User uid false end) /\
  (forall v, v <> uid -> find_user v w' = find_user v w) /\ w_records w' = w_records w.
Proof.
  unfold upsert_user, find_user. destruct (w_db_up w); intros E; [|discriminate E].
  injection E as <-. simpl. rewrite existsb_find.
  destruct (find (fun u => String.eqb (u_id u) uid) (w_users w)) as [u|] eqn:Hf.
  - split; [exact Hf|]. split; [reflexivity|reflexivity].
  - rewrite find_app, Hf. simpl. rewrite String.eqb_refl. split; [reflexivity|]. split; [|reflexivity].
    intros v Hv. rewrite find_app.
    destruct (find (fun u => String.eqb (u_id u) v) (w_users w)); [reflexivity|]. simpl.
    destruct (String.eqb_spec uid v) as [->|]; [contradiction Hv; reflexivity|reflexivity].
Qed.

Lemma requireAuth_next (verify : jsval -> exn + jsval) (h : option string) (w w' : world) (uid : string) :
  requireAuth verify h w = (inr (AuthNext uid), w') -> upsert_user uid w = (inr tt, w').
Proof.
  unfold requireAuth. intros E. apply try_ok in E.
  destruct E as [E|(e & w1 & _ & E)]; [|discriminate E].
  destruct h as [h|]; [|discriminate E].
  destruct (String.prefix "Bearer " h); [|discriminate E].
  apply bind_ok in E as (payload & w1 & E1 & E). apply lift_ok in E1 as [_ ->].
  destruct (get payload "sub") as [| | | |userId| | | |]; try discriminate E.
  apply bind_ok in E as ([] & w2 & E2 & E). unfold ret in E. injection E as <- <-. exact E2.
Qed.

Lemma requireAuth_v2_next (verify : jsval -> exn + jsval) (h : option string) (w w' : world) (uid : string) :
  requireAuth_v2 verify h w = (inr (AuthNext uid), w') ->
  upsert_user uid w = (inr tt, w') /\ uid <> "" /\
  exists h', h = Some h' /\ truthy (bearer_token h') = true.
Proof.
  unfold requireAuth_v2. intros E. apply try_ok in E.
  destruct E as [E|(e & w1 & _ & E)]; [|discriminate E].
  destruct h as [h|]; [|discriminate E].
  destruct (String.eqb h ""); [discriminate E|].
  destruct (negb (String.prefix "Bearer " h)); [discriminate E|].
  destruct (truthy (bearer_token h)) eqn:Ht; [|discriminate E]. simpl in E.
  apply bind_ok in E as (payload & w1 & E1 & E). apply lift_ok in E1 as [_ ->].
  destruct (truthy (get payload "sub")) eqn:Hs; [|discriminate E]. simpl in E.
  destruct (get payload "sub") as [| | | |userId| | | |]; try discriminate E.
  apply bind_ok in E as ([] & w2 & E2 & E). unfold ret in E. injection E as <- <-.
  split; [exact E2|]. split.
  - simpl in Hs. destruct (String.eqb_spec userId ""); [discriminate Hs | assumption].
  - exists h. split; reflexivity || exact Ht.
Qed.

Lemma signed_in_upsert (verify : jsval -> exn + jsval) (h : option string) (w w' : world) (uid : string) :
  (requireAuth verify h w = (inr (AuthNext uid), w') \/
   requireAuth_v2 verify h w = (inr (AuthNext uid), w')) ->
  upsert_user uid w = (inr tt, w').
Proof.
  intros [E|E]; [exact (requireAuth_next _ _ _ _ _ E) | exact (proj1 (requireAuth_v2_next _ _ _ _ _ E))].
Qed.

(** Signing in never changes anyone's premium status: after either
    version of [requireAuth] lets a request through for [uid], the [id]
    and [isPremium] columns of [uid]'s row are what they were (a new
    [uid] gets a row with [isPremium = false]), those of every other id
    are unchanged and no generation record is touched. (The upsert's
    [update: { email }] rewrites only the [email] column, which the user
    table of this development does not keep.) *)
Theorem sign_in_keeps_premium (verify : jsval -> exn + jsval) (h : option string) (w w' : world)
        (uid : string) :
  (requireAuth verify h w = (inr (AuthNext uid), w') \/
   requireAuth_v2 verify h w = (inr (AuthNext uid), w')) ->
  find_user uid w' = Some (match find_user uid w with Some u => u | None => User uid false end) /\
  (forall v, v <> uid -> find_user v w' = find_user v w) /\ w_records w' = w_records w.
Proof. intros E. exact (upsert_user_ok uid w w' (signed_in_upsert verify h w w' uid E)). Qed.

Definition verify0 (token : jsval) : exn + jsval :=
  match token with
  | JStr t => if String.eqb t "tok" then inr (JObj [("sub", JStr "u2"); ("email", JStr "a@b.c")])
              else inl (new_Error "Invalid JWT form")
  | _ => inl (new_Error "Invalid JWT form")
  end.

Definition auth_world : world := world0 [User "u1" true] [] true [].

Lemma sign_in_keeps_premium_witness :
  find_user "u2" (snd (requireAuth verify0 (Some "Bearer tok") auth_world)) = Some (User "u2" false) /\
  (forall v, v <> "u2" -> find_user v (snd (requireAuth verify0 (Some "Bearer tok") auth_world))
                          = find_user v auth_world) /\
  w_records (snd (requireAuth verify0 (Some "Bearer tok") auth_world)) = w_records auth_world.
Proof.
  exact (sign_in_keeps_premium verify0 (Some "Bearer tok") auth_world
           (snd (requireAuth verify0 (Some "Bearer tok") auth_world)) "u2" (or_introl eq_refl)).
Defined.

(** Behind either version of [requireAuth], the quota middleware never
    answers 401 "User not found.": the user it looks up has just been
    upserted. *)
Theorem signed_in_user_found (verify : jsval -> exn + jsval) (h : option string) (w w' : world)
        (uid f : string) :
  (requireAuth verify h w = (inr (AuthNext uid), w') \/
   requireAuth_v2 verify h w = (inr (AuthNext uid), w')) ->
  fst (enforceDailyLimit f uid w') <> inr (Respond (error_resp 401 "User not found.")).
Proof.
  intros E. destruct (upsert_user_ok uid w w' (signed_in_upsert verify h w w' uid E)) as [Hf _].
  rewrite (enforceDailyLimit_found f uid _ w' Hf).
  destruct (u_isPremium _); [discriminate|].
  destruct (limit_reached _ _); [|discriminate].
  unfold quota_exceeded, error_resp. intros H. inversion H.
Qed.

Lemma signed_in_user_found_witness :
  fst (enforceDailyLimit "image-generator" "u2" (snd (requireAuth_v2 verify0 (Some "Bearer tok") auth_world)))
  <> inr (Respond (error_resp 401 "User not found.")).
Proof.
  exact (signed_in_user_found verify0 (Some "Bearer tok") auth_world
           (snd (requireAuth_v2 verify0 (Some "Bearer tok") auth_world)) "u2" "image-generator"
           (or_intror eq_refl)).
Defined.

(** The later [requireAuth] lets a request through only with a non-empty
    bearer token and a non-empty user id; e.g. ["Bearer  abc"] (two
    spaces) is answered with EMPTY_TOKEN. *)
Theorem requireAuth_v2_nonempty_ids (verify : jsval -> exn + jsval) (h : option string)
        (w w' : world) (uid : string) :
  requireAuth_v2 verify h w = (inr (AuthNext uid), w') ->
  uid <> "" /\ exists h', h = Some h' /\ truthy (bearer_token h') = true.
Proof. intros E. exact (proj2 (requireAuth_v2_next verify h w w' uid E)). Qed.

Lemma requireAuth_v2_nonempty_ids_witness :
  "u2" <> "" /\ exists h', Some "Bearer tok" = Some h' /\ truthy (bearer_token h') = true.
Proof.
  exact (requireAuth_v2_nonempty_ids verify0 (Some "Bearer tok") auth_world
           (snd (requireAuth_v2 verify0 (Some "Bearer tok") auth_world)) "u2" eq_refl).
Defined.

(* ------------------------------------------------------------------ *)
(** ** Stripe webhook (POST /webhook of the payment routes, src/unnamed/part_001) *)

(** The columns of the user table the webhook reads and writes. *)
Record buser : Type := BUser {
  b_id : string; b_email : string; b_isPremium : bool; b_stripeId : option string }.

Record bstate : Type := BState { bs_users : list buser; bs_db_up : bool }.

Definition prisma_validation_error : exn := new_Error "Invalid prisma.user invocation".

(** [prisma.user.findUnique({ where: { email } })]. *)
Definition findUnique_email (email : jsval) (s : bstate) : exn + option buser :=
  if negb (bs_db_up s) then inl storage_error else
  match email with
  | JStr e => inr (find (fun u => String.eqb (b_email u) e) (bs_users s))
  | _ => inl prisma_validation_error
  end.

(** [prisma.user.findFirst({ where: { stripeId } })]; an [undefined]
    filter is dropped, [null] matches rows without a Stripe id. *)
Definition findFirst_stripeId (sid : jsval) (s : bstate) : exn + option buser :=
  if negb (bs_db_up s) then inl storage_error else
  match sid with
  | JStr x => inr (find (fun u => match b_stripeId u with Some y => String.eqb y x | None => false end)
                        (bs_users s))
  | JNull => inr (find (fun u => match b_stripeId u with Some _ => false | None => true end) (bs_users s))
  | JUndef => inr (hd_error (bs_users s))
  | _ => inl prisma_validation_error
  end.

(** The new [stripeId] written by [data: { stripeId: v }]: a string, [null],
    or (for [undefined]) the old value. *)
Definition stripeId_update (v : jsval) : exn + (option string -> option string) :=
  match v with
  | JStr x => inr (fun _ => Some x)
  | JNull => inr (fun _ => None)
  | JUndef => inr (fun old => old)
  | _ => inl prisma_validation_error
  end.

(** [prisma.user.update({ where: { id }, data: { stripeId, isPremium } })]. *)
Definition update_user (id : string) (sid : jsval) (premium : bool) (s : bstate) : exn + bstate :=
  if negb (bs_db_up s) then inl storage_error else
  match stripeId_update sid with
  | inl e => inl e
  | inr f =>
      if existsb (fun u => String.eqb (b_id u) id) (bs_users s) then
        inr (BState (map (fun u => if String.eqb (b_id u) id
                                   then BUser (b_id u) (b_email u) premium (f (b_stripeId u)) else u)
                         (bs_users s)) (bs_db_up s))
      else inl (new_Error "Record to update not found.")
  end.

(** The two [try { ... } catch { console.error(...) }] blocks: a failure
    leaves the table as it was. *)
Definition on_checkout_completed (obj : jsval) (s : bstate) : bstate :=
  match findUnique_email (get obj "customer_email") s with
  | inr (Some u) =>
      match update_user (b_id u) (get obj "subscription") true s with
      | inr s' => s'
      | inl _ => s
      end
  | _ => s
  end.

Definition on_subscription_deleted (obj : jsval) (s : bstate) : bstate :=
  match findFirst_stripeId (get obj "id") s with
  | inr (Some u) =>
      match update_user (b_id u) JNull false s with
      | inr s' => s'
      | inl _ => s
      end
  | _ => s
  end.

(** [v === lit] for a string literal [lit]. *)
Definition js_str_eq (v : jsval) (lit : string) : bool :=
  match v with JStr x => String.eqb x lit | _ => false end.

(** [construct] is the outcome of [stripe.webhooks.constructEvent(req.body, sig, secret)]. *)
Definition stripe_webhook (construct : exn + jsval) (s : bstate) : response * bstate :=
  match construct with
  | inl err => (Resp 400 (JStr ("Webhook Error: " ++ message err)), s)
  | inr event =>
      let ty := get event "type" in
      let obj := get (get event "data") "object" in
      let s1 := if js_str_eq ty "checkout.session.completed" then on_checkout_completed obj s else s in
      let s2 := if js_str_eq ty "customer.subscription.deleted" then on_subscription_deleted obj s1 else s1 in
      (json (JObj [("received", JBool true)]), s2)
  end.

(** The webhook acknowledges every verified event with 200
    [{ received: true }], whatever the event and the state of the
    database; when the database is unreachable the user table is left as
    it was, the failure being swallowed. *)
Theorem webhook_always_acknowledges (ev : jsval) (s : bstate) :
  fst (stripe_webhook (inr ev) s) = json (JObj [("received", JBool true)]) /\
  (bs_db_up s = false -> snd (stripe_webhook (inr ev) s) = s).
Proof.
  split; [reflexivity|].
  intros Hd.
  assert (H1 : forall o, on_checkout_completed o s = s)
    by (intros o; unfold on_checkout_completed, findUnique_email; rewrite Hd; reflexivity).
  assert (H2 : forall o, on_subscription_deleted o s = s)
    by (intros o; unfold on_subscription_deleted, findFirst_stripeId; rewrite Hd; reflexivity).
  unfold stripe_webhook. cbv zeta. simpl snd.
  destruct (js_str_eq _ "checkout.session.completed"); rewrite ?H1;
    destruct (js_str_eq _ "customer.subscription.deleted"); rewrite ?H2; reflexivity.
Qed.

Definition checkout_event (email sid : string) : jsval :=
  JObj [("id", JStr "evt_1"); ("type", JStr "checkout.session.completed");
        ("data", JObj [("object", JObj [("customer_email", JStr email); ("subscription", JStr sid)])])].

Definition deleted_event (sid : string) : jsval :=
  JObj [("id", JStr "evt_2"); ("type", JStr "customer.subscription.deleted");
        ("data", JObj [("object", JObj [("id", JStr sid); ("status", JStr "canceled")])])].

Definition billing0 : bstate :=
  BState [BUser "u1" "a@x.io" false None; BUser "u2" "b@x.io" false (Some "sub_9")] true.

Lemma webhook_always_acknowledges_witness :
  fst (stripe_webhook (inr (checkout_event "a@x.io" "sub_1")) billing0)
  = json (JObj [("received", JBool true)]) /\
  snd (stripe_webhook (inr (checkout_event "a@x.io" "sub_1")) (BState (bs_users billing0) false))
  = BState (bs_users billing0) false.
Proof.
  split.
  - exact (proj1 (webhook_always_acknowledges (checkout_event "a@x.io" "sub_1") billing0)).
  - exact (proj2 (webhook_always_acknowledges (checkout_event "a@x.io" "sub_1") (BState (bs_users billing0) false))
             eq_refl).
Defined.

Definition set_billing (id : string) (premium : bool) (sid : option string) (v : buser) : buser :=
  if String.eqb (b_id v) id then BUser (b_id v) (b_email v) premium sid else v.

Definition has_sid (x : string) (u : buser) : bool :=
  match b_stripeId u with Some y => String.eqb y x | None => false end.

Lemma find_has_sid_after_set (x id : string) (l : list buser) :
  Forall (fun v => b_stripeId v <> Some x) l -> existsb (fun u => String.eqb (b_id u) id) l = true ->
  exists v, find (has_sid x) (map (set_billing id true (Some x)) l) = Some v /\ b_id v = id.
Proof.
  induction l as [|u l IH]; intros Hf He; simpl in *; [discriminate|].
  inversion Hf as [|? ? Hu Hl]; subst.
  destruct (String.eqb_spec (b_id u) id) as [Hid|Hid].
  - assert (Hs : set_billing id true (Some x) u = BUser (b_id u) (b_email u) true (Some x))
      by (unfold set_billing; rewrite Hid, String.eqb_refl; reflexivity).
    rewrite Hs. exists (BUser (b_id u) (b_email u) true (Some x)). unfold has_sid. simpl.
    rewrite String.eqb_refl. split; [reflexivity|exact Hid].
  - assert (Hs : set_billing id true (Some x) u = u)
      by (unfold set_billing; destruct (String.eqb_spec (b_id u) id); [contradiction|reflexivity]).
    rewrite Hs. simpl in He.
    unfold has_sid at 1. destruct (b_stripeId u) as [y|] eqn:Hy.
    + destruct (String.eqb_spec y x) as [->|]; [contradiction|]. exact (IH Hl He).
    + exact (IH Hl He).
Qed.

Lemma find_email_after_set (e id : string) (p : bool) (sid : option string) (l : list buser) (u : buser) :
  find (fun v => String.eqb (b_email v) e) l = Some u -> b_id u = id ->
  find (fun v => String.eqb (b_email v) e) (map (set_billing id p sid) l)
  = Some (BUser (b_id u) (b_email u) p sid).
Proof.
  induction l as [|v l IH]; intros Hf Hid; [discriminate Hf|]. simpl in Hf.
  change (find (fun v => String.eqb (b_email v) e) (set_billing id p sid v :: map (set_billing id p sid) l)
          = Some (BUser (b_id u) (b_email u) p sid)).
  remember (set_billing id p sid v) as v' eqn:Hv'.
  assert (Hemail : b_email v' = b_email v)
    by (subst v'; unfold set_billing; destruct (String.eqb_spec (b_id v) id); reflexivity).
  simpl. rewrite Hemail. destruct (String.eqb (b_email v) e) eqn:He.
  - inversion Hf; subst. unfold set_billing. rewrite String.eqb_refl. reflexivity.
  - exact (IH Hf Hid).
Qed.

Lemma update_user_set (id : string) (sid : jsval) (p : bool) (f : option string -> option string)
      (s : bstate) :
  bs_db_up s = true -> stripeId_update sid = inr f ->
  existsb (fun u => String.eqb (b_id u) id) (bs_users s) = true ->
  update_user id sid p s
  = inr (BState (map (fun u => if String.eqb (b_id u) id
                               then BUser (b_id u) (b_email u) p (f (b_stripeId u)) else u)
                     (bs_users s)) (bs_db_up s)).
Proof. intros Hd Hs He. unfold update_user. rewrite Hd, Hs, He. reflexivity. Qed.

Lemma find_existsb_id (e : string) (l : list buser) (u : buser) :
  find (fun v => String.eqb (b_email v) e) l = Some u ->
  existsb (fun v => String.eqb (b_id v) (b_id u)) l = true.
Proof.
  intros Hf. apply existsb_exists. exists u. split; [apply (find_some _ _ Hf)|apply String.eqb_refl].
Qed.

(** Subscribing and then cancelling is a round trip on the user table:
    after [checkout.session.completed] for the email of user [u] with a
    subscription id that no row holds yet, [u] is premium with that
    subscription id; after [customer.subscription.deleted] for the same id,
    [u]'s row is non-premium with no subscription id and every other row
    is exactly as before. *)
Theorem checkout_then_cancel_round_trip (e sid : string) (u : buser) (s : bstate) :
  bs_db_up s = true ->
  find (fun v => String.eqb (b_email v) e) (bs_users s) = Some u ->
  Forall (fun v => b_stripeId v <> Some sid) (bs_users s) ->
  let s1 := snd (stripe_webhook (inr (checkout_event e sid)) s) in
  let s2 := snd (stripe_webhook (inr (deleted_event sid)) s1) in
  find (fun v => String.eqb (b_email v) e) (bs_users s1) = Some (BUser (b_id u) (b_email u) true (Some sid)) /\
  bs_users s2 = map (set_billing (b_id u) false None) (bs_users s).
Proof.
  intros Hd Hf Hsid s1 s2.
  assert (He := find_existsb_id e _ u Hf).
  assert (Hs1 : s1 = BState (map (set_billing (b_id u) true (Some sid)) (bs_users s)) true).
  { unfold s1, stripe_webhook. simpl. unfold on_checkout_completed, findUnique_email. simpl.
    rewrite Hd. simpl. rewrite Hf. rewrite (update_user_set (b_id u) (JStr sid) true (fun _ => Some sid) s Hd eq_refl He).
    rewrite Hd. reflexivity. }
  split.
  - rewrite Hs1. simpl. apply find_email_after_set; [exact Hf|reflexivity].
  - unfold s2. rewrite Hs1. unfold stripe_webhook. simpl. unfold on_subscription_deleted, findFirst_stripeId.
    simpl. fold (has_sid sid).
    destruct (find_has_sid_after_set sid (b_id u) (bs_users s) Hsid He) as (v & Hv & Hvid).
    rewrite Hv.
    assert (He1 : existsb (fun w => String.eqb (b_id w) (b_id v))
                    (map (set_billing (b_id u) true (Some sid)) (bs_users s)) = true).
    { apply existsb_exists. exists v. split; [apply (find_some _ _ Hv)|apply String.eqb_refl]. }
    rewrite (update_user_set (b_id v) JNull false (fun _ => None)
               (BState (map (set_billing (b_id u) true (Some sid)) (bs_users s)) true) eq_refl eq_refl He1).
    simpl. rewrite Hvid, map_map. apply map_ext. intros w. unfold set_billing.
    destruct (String.eqb (b_id w) (b_id u)) eqn:Hw; simpl; rewrite ?Hw; reflexivity.
Qed.

Lemma checkout_then_cancel_round_trip_witness :
  find (fun v => String.eqb (b_email v) "a@x.io")
       (bs_users (snd (stripe_webhook (inr (checkout_event "a@x.io" "sub_1")) billing0)))
  = Some (BUser "u1" "a@x.io" true (Some "sub_1")) /\
  bs_users (snd (stripe_webhook (inr (deleted_event "sub_1"))
                   (snd (stripe_webhook (inr (checkout_event "a@x.io" "sub_1")) billing0))))
  = map (set_billing "u1" false None) (bs_users billing0).
Proof.
  exact (checkout_then_cancel_round_trip "a@x.io" "sub_1" (BUser "u1" "a@x.io" false None) billing0
           eq_refl eq_refl ltac:(repeat constructor; discriminate)).
Defined.

(* ------------------------------------------------------------------ *)
(** ** PDF text extraction (utils/pdfExtract.ts, src/unnamed/part_000) *)

(** [Array.prototype.join(sep)] on strings. *)
Fixpoint js_join (sep : string) (l : list string) : string :=
  match l with
  | [] => ""
  | [x] => x
  | x :: r => x ++ sep ++ js_join sep r
  end.

(** What pdf.js gives for a loaded document: its [numPages], and for a page
    number the outcome of [pdf.getPage(n)] followed by
    [page.getTextContent()], as the [str] of each text item. *)
Record pdf_doc : Type := PdfDoc {
  numPages : nat;
  page_items : nat -> exn + list string }.

(** [processPage]: a page that fails gives the empty string. *)
Definition processPage (pdf : pdf_doc) (pageNumber : nat) : string :=
  match page_items pdf pageNumber with
  | inr strs => js_join " " strs
  | inl _ => ""
  end.

Definition newline : string := String (Ascii.ascii_of_nat 10) "".

Definition pdf_error (e : exn) : exn :=
  new_Error ("Failed to extract text from PDF: " ++ message e).

(** [extractTextFromPdf]; [getDocument] is the outcome of
    [pdfjsLib.getDocument({ data }).promise] for the buffer. Every error
    thrown in the [try] block is an [Error], so the catch block rethrows
    [error.message] wrapped. *)
Definition extractTextFromPdf (getDocument : list Byte.byte -> exn + pdf_doc) (buffer : list Byte.byte)
  : exn + string :=
  match getDocument buffer with
  | inl e => inl (pdf_error e)
  | inr pdf =>
      let pageTexts := map (processPage pdf) (seq 1 (numPages pdf)) in
      let fullText := trim (js_join newline pageTexts) in
      if String.eqb fullText "" then inl (pdf_error (new_Error "No text could be extracted from the PDF"))
      else inr fullText
  end.

Lemma list_ascii_of_string_app (x y : string) :
  list_ascii_of_string (x ++ y) = (list_ascii_of_string x ++ list_ascii_of_string y)%list.
Proof. induction x as [|c x IH]; simpl; [reflexivity|rewrite IH; reflexivity]. Qed.

Lemma string_of_list_ascii_app (l1 l2 : list ascii) :
  string_of_list_ascii (l1 ++ l2) = (string_of_list_ascii l1 ++ string_of_list_ascii l2)%string.
Proof. induction l1 as [|c l1 IH]; simpl; [reflexivity|rewrite IH; reflexivity]. Qed.

Lemma rev_string_involutive (s : string) : rev_string (rev_string s) = s.
Proof.
  unfold rev_string. rewrite list_ascii_of_string_of_list_ascii, rev_involutive.
  apply string_of_list_ascii_of_string.
Qed.

Lemma rev_string_app (x y : string) : rev_string (x ++ y) = (rev_string y ++ rev_string x)%string.
Proof.
  unfold rev_string. rewrite list_ascii_of_string_app, rev_app_distr. apply string_of_list_ascii_app.
Qed.

(** A string [trim_start] leaves alone: empty or not starting with a space. *)
Definition starts_ok (s : string) : bool :=
  match s with String c _ => negb (is_js_space c) | EmptyString => true end.

Lemma trim_start_starts_ok (s : string) : starts_ok (trim_start s) = true.
Proof.
  induction s as [|c r IH]; simpl; [reflexivity|].
  destruct (is_js_space c) eqn:Hc; [exact IH|simpl; rewrite Hc; reflexivity].
Qed.

Lemma trim_start_ok (s : string) : starts_ok s = true -> trim_start s = s.
Proof.
  destruct s as [|c r]; simpl; [reflexivity|]. destruct (is_js_space c); [discriminate|reflexivity].
Qed.

Lemma trim_start_suffix (s : string) : exists p, s = (p ++ trim_start s)%string.
Proof.
  induction s as [|c r IH]; simpl; [exists ""; reflexivity|].
  destruct (is_js_space c).
  - destruct IH as [p Hp]. exists (String c p). simpl. rewrite <- Hp. reflexivity.
  - exists "". reflexivity.
Qed.

Lemma starts_ok_app_l (x y : string) : starts_ok (x ++ y) = true -> starts_ok x = true.
Proof. destruct x; simpl; auto. Qed.

(** [trim] is idempotent: its result has no whitespace to remove at
    either end. *)
Lemma trim_idempotent (s : string) : trim (trim s) = trim s.
Proof.
  unfold trim at 2. set (a := trim_start s). set (b := trim_start (rev_string a)).
  assert (Ha : starts_ok a = true) by apply trim_start_starts_ok.
  destruct (trim_start_suffix (rev_string a)) as [p Hp]. fold b in Hp.
  assert (Hab : a = (rev_string b ++ rev_string p)%string)
    by (rewrite <- rev_string_app, <- Hp, rev_string_involutive; reflexivity).
  assert (Hrb : starts_ok (rev_string b) = true)
    by (apply (starts_ok_app_l _ (rev_string p)); rewrite <- Hab; exact Ha).
  unfold trim. rewrite (trim_start_ok _ Hrb), rev_string_involutive.
  rewrite (trim_start_ok b (trim_start_starts_ok _)). reflexivity.
Qed.

Lemma trim_start_join_blank (l : list string) :
  Forall (fun x => x = "") l -> trim_start (js_join newline l) = "".
Proof.
  induction l as [|x [|y r] IH]; intros Hl; inversion Hl as [|? ? Hx Hr]; subst; [reflexivity|reflexivity|].
  exact (IH Hr).
Qed.

Lemma processPage_failed_pages (pdf : pdf_doc) :
  (forall n, (1 <= n <= numPages pdf)%nat -> exists e, page_items pdf n = inl e) ->
  Forall (fun x => x = "") (map (processPage pdf) (seq 1 (numPages pdf))).
Proof.
  intros Hp. apply Forall_forall. intros x Hx. apply in_map_iff in Hx as (n & <- & Hn).
  apply in_seq in Hn. destruct (Hp n ltac:(lia)) as [e He]. unfold processPage. rewrite He. reflexivity.
Qed.

(** What [extractTextFromPdf] returns is never empty and has no leading or
    trailing whitespace. *)
Theorem pdf_text_trimmed_nonempty (getDocument : list Byte.byte -> exn + pdf_doc) (buffer : list Byte.byte)
        (t : string) :
  extractTextFromPdf getDocument buffer = inr t -> t <> "" /\ trim t = t.
Proof.
  unfold extractTextFromPdf. destruct (getDocument buffer) as [e|pdf]; [discriminate|].
  cbv zeta. destruct (String.eqb_spec (trim (js_join newline (map (processPage pdf) (seq 1 (numPages pdf))))) "")
    as [_|Hne]; [discriminate|].
  intros H. inversion H; subst. split; [exact Hne|apply trim_idempotent].
Qed.

(** A document whose pages all fail to load (or that has no pages) is
    rejected with "Failed to extract text from PDF: No text could be
    extracted from the PDF": failed pages count as empty text. *)
Theorem pdf_all_pages_failed (getDocument : list Byte.byte -> exn + pdf_doc) (buffer : list Byte.byte)
        (pdf : pdf_doc) :
  getDocument buffer = inr pdf ->
  (forall n, (1 <= n <= numPages pdf)%nat -> exists e, page_items pdf n = inl e) ->
  extractTextFromPdf getDocument buffer
  = inl (new_Error "Failed to extract text from PDF: No text could be extracted from the PDF").
Proof.
  intros Hd Hp. unfold extractTextFromPdf. rewrite Hd. cbv zeta.
  unfold trim. rewrite (trim_start_join_blank _ (processPage_failed_pages pdf Hp)). reflexivity.
Qed.

(** Every failure of [extractTextFromPdf], from pdf.js or for a document
    without text, is a plain [Error] whose message starts with
    "Failed to extract text from PDF: " and carries no HTTP status. *)
Theorem pdf_errors_wrapped (getDocument : list Byte.byte -> exn + pdf_doc) (buffer : list Byte.byte)
        (e : exn) :
  extractTextFromPdf getDocument buffer = inl e ->
  String.prefix "Failed to extract text from PDF: " (message e) = true /\ status e = None.
Proof.
  unfold extractTextFromPdf. destruct (getDocument buffer) as [e0|pdf].
  - intros H. inversion H; subst. split; [apply prefix_app|reflexivity].
  - cbv zeta. destruct (String.eqb _ ""); intros H; inversion H; subst; split; reflexivity.
Qed.

Definition scanned_pdf : pdf_doc := PdfDoc 2 (fun _ => inl (new_Error "Invalid page request")).

Definition text_pdf : pdf_doc :=
  PdfDoc 2 (fun n => if (n =? 1)%nat then inr [" Jane"; "Doe "] else inl (new_Error "bad page")).

Lemma pdf_text_trimmed_nonempty_witness :
  extractTextFromPdf (fun _ => inr text_pdf) [] = inr "Jane Doe" /\
  "Jane Doe" <> "" /\ trim "Jane Doe" = "Jane Doe".
Proof.
  split; [reflexivity|]. apply (pdf_text_trimmed_nonempty (fun _ => inr text_pdf) []). reflexivity.
Defined.

Lemma pdf_all_pages_failed_witness :
  extractTextFromPdf (fun _ => inr scanned_pdf) []
  = inl (new_Error "Failed to extract text from PDF: No text could be extracted from the PDF").
Proof.
  apply (pdf_all_pages_failed (fun _ => inr scanned_pdf) [] scanned_pdf eq_refl).
  intros n _. exists (new_Error "Invalid page request"). reflexivity.
Defined.

Lemma pdf_errors_wrapped_witness :
  String.prefix "Failed to extract text from PDF: "
    (message (new_Error "Failed to extract text from PDF: Invalid PDF structure")) = true /\
  status (new_Error "Failed to extract text from PDF: Invalid PDF structure") = None.
Proof.
  apply (pdf_errors_wrapped (fun _ => inl (new_Error "Invalid PDF structure")) []). reflexivity.
Defined.
